(** * zigbeemqttexporter: the message-to-metric engine of [zigbeemqttexporter.py]

    A shallow embedding of [files/app/zigbeemqttexporter.py] and the properties
    of its normalisation engine.

    Layout:
    - [Py]: the Python values and built-ins the exporter calls ([str] methods,
      [bytes.decode], [float], [re.sub] with the exporter's pattern);
    - [Json]: [json.loads] and [json.dumps];
    - [Prom]: what the exporter observes of the Prometheus client;
    - [Exporter]: the functions of the source file, in source order;
    - the vocabulary of the properties, then the properties.

    Conventions.  A Python [str] is represented by the bytes of its UTF-8
    encoding, held in a Rocq [string]; [bytes] are held in a [string] too and
    told apart by the constructor of [pyval].  [str.upper] is modelled on the
    ASCII letters (other characters are left as they are).  A Python [float] is
    an IEEE-754 binary64 value, [spec_float] at precision 53. *)

From Stdlib Require Import ZArith NArith Ascii String List Bool Lia DecimalString.
From Stdlib Require Import Floats.SpecFloat.
From stdpp Require Import gmap strings.

Local Open Scope Z_scope.

(** * Python values and built-ins *)
Module Py.

(** ** Exceptions and results *)

Inductive exn :=
| AttributeError | IndexError | KeyError | TypeError
| ValueError | UnicodeDecodeError | JSONDecodeError.

Definition exn_eqb (a b : exn) : bool :=
  match a, b with
  | AttributeError, AttributeError | IndexError, IndexError | KeyError, KeyError
  | TypeError, TypeError | ValueError, ValueError
  | UnicodeDecodeError, UnicodeDecodeError | JSONDecodeError, JSONDecodeError => true
  | _, _ => false
  end.

(** [isinstance e cls] for exception classes: [UnicodeDecodeError] and
    [json.JSONDecodeError] derive from [ValueError]. *)
Definition isinstance_exn (e cls : exn) : bool :=
  match cls, e with
  | ValueError, (ValueError | UnicodeDecodeError | JSONDecodeError) => true
  | _, _ => exn_eqb e cls
  end.

Inductive result (A : Type) :=
| Return (a : A)
| Raise (e : exn).
Arguments Return {A} a.
Arguments Raise {A} e.

Definition rbind {A B} (r : result A) (k : A -> result B) : result B :=
  match r with
  | Return a => k a
  | Raise e => Raise e
  end.

(** ** Values *)

Unset Elimination Schemes.
Inductive pyval :=
| VNone
| VBool (b : bool)
| VInt (z : Z)
| VFloat (f : spec_float)
| VStr (s : string)
| VBytes (b : string)
| VList (l : list pyval)
| VDict (d : list (string * pyval)).
Set Elimination Schemes.

(** [isinstance(data, (int, float))]; [bool] is a subclass of [int]. *)
Definition isinstance_int_float (data : pyval) : bool :=
  match data with
  | VBool _ | VInt _ | VFloat _ => true
  | _ => false
  end.

Definition isinstance_dict (data : pyval) : bool :=
  match data with
  | VDict _ => true
  | _ => false
  end.

(** Truth value, as tested by [not x]. *)
Definition truthy (v : pyval) : bool :=
  match v with
  | VNone => false
  | VBool b => b
  | VInt z => negb (z =? 0)
  | VFloat (S754_zero _) => false
  | VFloat _ => true
  | VStr s | VBytes s => negb (String.eqb s "")
  | VList l => match l with [] => false | _ => true end
  | VDict d => match d with [] => false | _ => true end
  end.

(** [d[k] = v] on an insertion-ordered dict. *)
Fixpoint dict_set (k : string) (v : pyval) (d : list (string * pyval))
  : list (string * pyval) :=
  match d with
  | [] => [(k, v)]
  | (k', v') :: d' =>
      if String.eqb k' k then (k', v) :: d' else (k', v') :: dict_set k v d'
  end.

(** ** Characters and strings *)

Definition byte (c : ascii) : N := N_of_ascii c.

Definition is_digit (c : ascii) : bool :=
  ((48 <=? byte c) && (byte c <=? 57))%N.

Definition digit_val (c : ascii) : Z := Z.of_N (byte c) - 48.

Definition ascii_upper (c : ascii) : ascii :=
  if ((97 <=? byte c) && (byte c <=? 122))%N then ascii_of_N (byte c - 32) else c.

Definition ascii_lower (c : ascii) : ascii :=
  if ((65 <=? byte c) && (byte c <=? 90))%N then ascii_of_N (byte c + 32) else c.

Fixpoint map_chars (f : ascii -> ascii) (s : string) : string :=
  match s with
  | EmptyString => EmptyString
  | String c s' => String (f c) (map_chars f s')
  end.

(** [s.upper()] *)
Definition upper : string -> string := map_chars ascii_upper.

(** [s.lower()] *)
Definition lower : string -> string := map_chars ascii_lower.

(** [s.replace(old, new)] for a one-character [old]. *)
Fixpoint replace (old : ascii) (new : string) (s : string) : string :=
  match s with
  | EmptyString => EmptyString
  | String c s' =>
      if Ascii.eqb c old then new +:+ replace old new s'
      else String c (replace old new s')
  end.

(** [s.split(sep)] for a one-character [sep]: never the empty list. *)
Fixpoint split (sep : ascii) (s : string) : list string :=
  match s with
  | EmptyString => [EmptyString]
  | String c s' =>
      if Ascii.eqb c sep then EmptyString :: split sep s'
      else match split sep s' with
           | w :: ws => String c w :: ws
           | [] => [String c EmptyString]
           end
  end.

Fixpoint startswith (p s : string) : bool :=
  match p, s with
  | EmptyString, _ => true
  | String a p', String b s' => Ascii.eqb a b && startswith p' s'
  | String _ _, EmptyString => false
  end.

(** [sub in s] *)
Fixpoint contains (sub s : string) : bool :=
  startswith sub s ||
  match s with
  | EmptyString => false
  | String _ s' => contains sub s'
  end.

(** [info[i]] for [i >= 0] and [info[-1]]. *)
Definition index {A} (l : list A) (i : nat) : result A :=
  match nth_error l i with
  | Some x => Return x
  | None => Raise IndexError
  end.

Definition index_last {A} (l : list A) : result A :=
  match List.rev l with
  | x :: _ => Return x
  | [] => Raise IndexError
  end.

(** *** [re.sub(r"\((.*?)\)", "", s)]

    A match starts at a ["("] and runs to the first [")"] after it, provided no
    newline lies in between (["."] does not match a newline).  Matches are taken
    leftmost first and do not overlap. *)

(** [closes s]: a [")"] occurs in [s] before any newline. *)
Fixpoint closes (s : string) : bool :=
  match s with
  | EmptyString => false
  | String c s' =>
      if Ascii.eqb c ")" then true
      else if Ascii.eqb c "010" then false
      else closes s'
  end.

(** [inside] says that the scan is within a match being removed. *)
Fixpoint sub_parens_go (inside : bool) (s : string) : string :=
  match s with
  | EmptyString => EmptyString
  | String c s' =>
      if inside then
        if Ascii.eqb c ")" then sub_parens_go false s' else sub_parens_go true s'
      else if Ascii.eqb c "(" && closes s' then sub_parens_go true s'
      else String c (sub_parens_go false s')
  end.

Definition re_sub_parens (s : string) : string := sub_parens_go false s.

(** ** UTF-8 *)

Definition is_cont (c : ascii) : bool :=
  ((128 <=? byte c) && (byte c <? 192))%N.

Definition is_surrogate (cp : N) : bool :=
  ((55296 <=? cp) && (cp <=? 57343))%N.

(** The code points of a UTF-8 byte string; [None] when the bytes are not
    valid.  With [surrogatepass] the three-byte encodings of surrogates are
    accepted, as the error handler of that name does. *)
Fixpoint utf8_decode (surrogatepass : bool) (s : string) : option (list N) :=
  match s with
  | EmptyString => Some []
  | String b0 s1 =>
      let n0 := byte b0 in
      if (n0 <? 128)%N then cons n0 <$> utf8_decode surrogatepass s1
      else if (n0 <? 194)%N then None
      else if (n0 <? 224)%N then
        match s1 with
        | String b1 s2 =>
            if is_cont b1
            then cons ((n0 - 192) * 64 + (byte b1 - 128))%N
                   <$> utf8_decode surrogatepass s2
            else None
        | _ => None
        end
      else if (n0 <? 240)%N then
        match s1 with
        | String b1 (String b2 s3) =>
            let cp := ((n0 - 224) * 4096 + (byte b1 - 128) * 64 + (byte b2 - 128))%N in
            if is_cont b1 && is_cont b2 && (2048 <=? cp)%N
               && (surrogatepass || negb (is_surrogate cp))
            then cons cp <$> utf8_decode surrogatepass s3
            else None
        | _ => None
        end
      else if (n0 <? 245)%N then
        match s1 with
        | String b1 (String b2 (String b3 s4)) =>
            let cp := ((n0 - 240) * 262144 + (byte b1 - 128) * 4096
                       + (byte b2 - 128) * 64 + (byte b3 - 128))%N in
            if is_cont b1 && is_cont b2 && is_cont b3
               && (65536 <=? cp)%N && (cp <=? 1114111)%N
            then cons cp <$> utf8_decode surrogatepass s4
            else None
        | _ => None
        end
      else None
  end.

Definition chr (n : N) : string := String (ascii_of_N n) EmptyString.

Definition utf8_encode (cp : N) : string :=
  (if cp <? 128 then chr cp
   else if cp <? 2048 then chr (192 + cp / 64) +:+ chr (128 + cp mod 64)
   else if cp <? 65536 then
     chr (224 + cp / 4096) +:+ chr (128 + (cp / 64) mod 64) +:+ chr (128 + cp mod 64)
   else
     chr (240 + cp / 262144) +:+ chr (128 + (cp / 4096) mod 64)
       +:+ chr (128 + (cp / 64) mod 64) +:+ chr (128 + cp mod 64))%N.

Definition str_of_codepoints (cps : list N) : string :=
  fold_right (fun cp s => utf8_encode cp +:+ s) EmptyString cps.

(** [b.decode()]: strict UTF-8; the text is then held as those same bytes. *)
Definition decode (b : string) : result string :=
  match utf8_decode false b with
  | Some _ => Return b
  | None => Raise UnicodeDecodeError
  end.

(** [str(z)] for an [int]. *)
Definition str_of_int (z : Z) : string := NilZero.string_of_int (Z.to_int z).

(** ** [float(s)]

    The text is read without regard to the case of its letters, so it is put in
    lower case first.  Underscores are accepted between digits only; white
    space is stripped at both ends; then comes an optional sign and either
    [inf], [infinity], [nan] or a decimal literal with an optional exponent.
    The value is the binary64 number nearest to the decimal, ties to even. *)

Definition prec : Z := 53.
Definition emax : Z := 1024.

Definition is_space (c : ascii) : bool :=
  ((9 <=? byte c) && (byte c <=? 13) || (28 <=? byte c) && (byte c <=? 32))%N.

Fixpoint lstrip (s : string) : string :=
  match s with
  | EmptyString => EmptyString
  | String c s' => if is_space c then lstrip s' else s
  end.

Definition strip (s : string) : string :=
  String.rev (lstrip (String.rev (lstrip s))).

Fixpoint drop_underscores (prev : ascii) (s : string) : option string :=
  match s with
  | EmptyString => if Ascii.eqb prev "_" then None else Some EmptyString
  | String c s' =>
      if Ascii.eqb c "_" then
        if is_digit prev then drop_underscores c s' else None
      else if Ascii.eqb prev "_" && negb (is_digit c) then None
      else String c <$> drop_underscores c s'
  end.

(** The leading digits of [s] and what follows them. *)
Fixpoint span_digits (s : string) : string * string :=
  match s with
  | EmptyString => (EmptyString, EmptyString)
  | String c s' =>
      if is_digit c
      then let '(d, r) := span_digits s' in (String c d, r)
      else (EmptyString, s)
  end.

Fixpoint Z_of_digits_from (acc : Z) (d : string) : Z :=
  match d with
  | EmptyString => acc
  | String c d' => Z_of_digits_from (10 * acc + digit_val c) d'
  end.

Definition Z_of_digits (d : string) : Z := Z_of_digits_from 0 d.

Definition split_sign (s : string) : bool * string :=
  match s with
  | String "-" s' => (true, s')
  | String "+" s' => (false, s')
  | _ => (false, s)
  end.

(** A decimal literal as [(m, e)], standing for [m * 10 ^ e]. *)
Definition parse_decimal (s : string) : option (Z * Z) :=
  let '(ip, r1) := span_digits s in
  let '(fp, r2) := match r1 with
                   | String "." r => span_digits r
                   | _ => (EmptyString, r1)
                   end in
  if String.eqb ip "" && String.eqb fp "" then None
  else
    let m := Z_of_digits (ip +:+ fp) in
    let scale := Z.of_nat (String.length fp) in
    match r2 with
    | EmptyString => Some (m, - scale)
    | String "e" r3 =>
        let '(neg, r4) := split_sign r3 in
        let '(ep, r5) := span_digits r4 in
        if String.eqb ep "" || negb (String.eqb r5 "") then None
        else Some (m, (if neg then - Z_of_digits ep else Z_of_digits ep) - scale)
    | _ => None
    end.

(** The binary64 number nearest to [m * 10 ^ e], for [m >= 0]. *)
Definition float_of_decimal (neg : bool) (m e : Z) : spec_float :=
  match m with
  | Z0 => S754_zero neg
  | Zneg _ => S754_nan
  | Zpos p =>
      if 0 <=? e then binary_round prec emax neg (Pos.mul p (Z.to_pos (10 ^ e))) 0
      else
        let d := 10 ^ (- e) in
        let s := Z.log2 d + 64 in
        let n := m * 2 ^ s in
        let q := n / d in
        let r := n mod d in
        let loc := if r =? 0 then loc_Exact else loc_Inexact (Z.compare (2 * r) d) in
        binary_round_aux prec emax neg q (- s) loc
  end.

Definition float_of_text (s : string) : option spec_float :=
  u ← drop_underscores "000" s;
  let '(neg, body) := split_sign (strip u) in
  if String.eqb body "inf" || String.eqb body "infinity" then Some (S754_infinity neg)
  else if String.eqb body "nan" then Some S754_nan
  else '(m, e) ← parse_decimal body; Some (float_of_decimal neg m e).

Definition py_float (s : string) : option spec_float := float_of_text (lower s).

(** ** [repr(x)] for a [float]

    The shortest run of digits that [float] reads back as [x], and among those
    of that length the nearest to [x]; in exponent form when the decimal point
    would lie more than 16 places right or more than 3 places left of the
    first digit. *)

(** [x = m * 2 ^ e] as a fraction. *)
Definition fraction (m : positive) (e : Z) : Z * Z :=
  if 0 <=? e then (Zpos m * 2 ^ e, 1) else (Zpos m, 2 ^ (- e)).

(** [10 ^ k <= n / d] *)
Definition pow10_le (k n d : Z) : bool :=
  if 0 <=? k then d * 10 ^ k <=? n else d <=? n * 10 ^ (- k).

(** The [k] with [10 ^ k <= n / d < 10 ^ (k + 1)]: the binary logarithm
    brackets it, and the largest candidate that fits is taken. *)
Definition log10_floor (n d : Z) : Z :=
  let l := Z.log2 n - Z.log2 d in
  let top := ((l + 1) * 30103) / 100000 + 1 in
  let fix search (fuel : nat) (k : Z) : Z :=
    match fuel with
    | O => k
    | S fuel' => if pow10_le k n d then k else search fuel' (k - 1)
    end in
  search 4%nat top.

(** [floor (n / d / 10 ^ s)] *)
Definition scaled_floor (n d s : Z) : Z :=
  if 0 <=? s then n / (d * 10 ^ s) else (n * 10 ^ (- s)) / d.

Definition reads_back (x : spec_float) (digits s : Z) : bool :=
  match SFcompare x (float_of_decimal false digits s) with
  | Some Eq => true
  | _ => false
  end.

(** With [p] digits: the one of the two neighbours of [x] that reads back
    as [x], the nearer one when both do. *)
Definition digits_at (x : spec_float) (n d k : Z) (p : Z) : option (Z * Z) :=
  let s := k - p + 1 in
  let lo := scaled_floor n d s in
  let hi := lo + 1 in
  (* [2 x] against [(lo + hi) * 10 ^ s] *)
  let side := if 0 <=? s then Z.compare (2 * n) ((lo + hi) * 10 ^ s * d)
              else Z.compare (2 * n * 10 ^ (- s)) ((lo + hi) * d) in
  let lo_first := match side with
                  | Lt => true
                  | Eq => Z.even lo
                  | Gt => false
                  end in
  let '(a, b) := if lo_first then (lo, hi) else (hi, lo) in
  if reads_back x a s then Some (a, s)
  else if reads_back x b s then Some (b, s)
  else None.

Fixpoint shortest (x : spec_float) (n d k : Z) (fuel : nat) (p : Z) : Z * Z :=
  match fuel with
  | O => (scaled_floor n d (k - p + 1), k - p + 1)
  | S fuel' =>
      match digits_at x n d k p with
      | Some r => r
      | None => shortest x n d k fuel' (p + 1)
      end
  end.

Fixpoint zeros (n : nat) : string :=
  match n with
  | O => EmptyString
  | S n' => String "0" (zeros n')
  end.

Fixpoint rstrip_zeros_rev (s : string) : string :=
  match s with
  | String "0" s' => rstrip_zeros_rev s'
  | _ => s
  end.

Definition rstrip_zeros (s : string) : string :=
  String.rev (rstrip_zeros_rev (String.rev s)).

Fixpoint take (n : nat) (s : string) : string :=
  match n, s with
  | S n', String c s' => String c (take n' s')
  | _, _ => EmptyString
  end.

Fixpoint drop (n : nat) (s : string) : string :=
  match n, s with
  | S n', String _ s' => drop n' s'
  | _, _ => s
  end.

(** Digits [ds] with the decimal point [decpt] places after the first. *)
Definition format_digits (ds : string) (decpt : Z) : string :=
  let nd := Z.of_nat (String.length ds) in
  if (decpt <=? -4) || (16 <? decpt) then
    let e := decpt - 1 in
    let es := str_of_int (Z.abs e) in
    take 1 ds
      +:+ (if 1 <? nd then "." +:+ drop 1 ds else EmptyString)
      +:+ "e" +:+ (if e <? 0 then "-" else "+")
      +:+ (if Z.abs e <? 10 then "0" else EmptyString) +:+ es
  else if decpt <=? 0 then "0." +:+ zeros (Z.to_nat (- decpt)) +:+ ds
  else if nd <=? decpt then ds +:+ zeros (Z.to_nat (decpt - nd)) +:+ ".0"
  else take (Z.to_nat decpt) ds +:+ "." +:+ drop (Z.to_nat decpt) ds.

Definition float_repr (x : spec_float) : string :=
  match x with
  | S754_zero false => "0.0"
  | S754_zero true => "-0.0"
  | S754_infinity false => "inf"
  | S754_infinity true => "-inf"
  | S754_nan => "nan"
  | S754_finite neg m e =>
      let '(n, d) := fraction m e in
      let k := log10_floor n d in
      let '(digits, s) := shortest (S754_finite false m e) n d k 17 1 in
      let all := str_of_int digits in
      (if neg then "-" else EmptyString)
        +:+ format_digits (rstrip_zeros all) (Z.of_nat (String.length all) + s)
  end.

End Py.

(** * [json.loads] and [json.dumps] *)
Module Json.
Import Py.

(** ** The text a payload is decoded to

    [json.loads] takes [str], or [bytes] in UTF-8, UTF-16 or UTF-32; the
    encoding of [bytes] is found from a byte-order mark or from the zero bytes
    among the first four, and the bytes are decoded with [surrogatepass].
    The limits of the interpreter (depth of recursion, length of an integer
    literal) are not part of this development. *)

Inductive encoding :=
| UTF8 | UTF8_SIG | UTF16 | UTF16_BE | UTF16_LE | UTF32 | UTF32_BE | UTF32_LE.

Definition BOM_UTF8 : string := String "239" (String "187" (String "191" "")).
Definition BOM_UTF16_BE : string := String "254" (String "255" "").
Definition BOM_UTF16_LE : string := String "255" (String "254" "").
Definition BOM_UTF32_BE : string :=
  String "000" (String "000" (String "254" (String "255" ""))).
Definition BOM_UTF32_LE : string :=
  String "255" (String "254" (String "000" (String "000" ""))).

Definition is_nul (c : ascii) : bool := Ascii.eqb c "000".

Definition detect_encoding (b : string) : encoding :=
  if startswith BOM_UTF32_BE b || startswith BOM_UTF32_LE b then UTF32
  else if startswith BOM_UTF16_BE b || startswith BOM_UTF16_LE b then UTF16
  else if startswith BOM_UTF8 b then UTF8_SIG
  else
    match b with
    | String b0 (String b1 (String b2 (String b3 _))) =>
        if is_nul b0 then (if is_nul b1 then UTF32_BE else UTF16_BE)
        else if is_nul b1 then
          (if is_nul b2 && is_nul b3 then UTF32_LE else UTF16_LE)
        else UTF8
    | String b0 (String b1 EmptyString) =>
        if is_nul b0 then UTF16_BE
        else if is_nul b1 then UTF16_LE
        else UTF8
    | _ => UTF8
    end.

(** The 16-bit units of a UTF-16 byte string. *)
Fixpoint utf16_units (big_endian : bool) (b : string) : option (list N) :=
  match b with
  | EmptyString => Some []
  | String b0 (String b1 b') =>
      cons (if big_endian then byte b0 * 256 + byte b1
            else byte b1 * 256 + byte b0)%N <$> utf16_units big_endian b'
  | String _ EmptyString => None
  end.

Definition is_high (u : N) : bool := ((55296 <=? u) && (u <=? 56319))%N.
Definition is_low (u : N) : bool := ((56320 <=? u) && (u <=? 57343))%N.
Definition join_surrogates (hi lo : N) : N :=
  (65536 + (hi - 55296) * 1024 + (lo - 56320))%N.

(** A high surrogate directly followed by a low one is one code point; [hi]
    is a high surrogate waiting for its partner. *)
Definition flush (hi : option N) : list N :=
  match hi with
  | Some h => [h]
  | None => []
  end.

Fixpoint pair_surrogates (hi : option N) (us : list N) : list N :=
  match us with
  | [] => flush hi
  | u :: us' =>
      if is_low u && bool_decide (is_Some hi)
      then join_surrogates (default 0%N hi) u :: pair_surrogates None us'
      else if is_high u then flush hi ++ pair_surrogates (Some u) us'
      else flush hi ++ u :: pair_surrogates None us'
  end.

Fixpoint utf32_decode (big_endian : bool) (b : string) : option (list N) :=
  match b with
  | EmptyString => Some []
  | String b0 (String b1 (String b2 (String b3 b'))) =>
      let cp := (if big_endian
                 then ((byte b0 * 256 + byte b1) * 256 + byte b2) * 256 + byte b3
                 else ((byte b3 * 256 + byte b2) * 256 + byte b1) * 256 + byte b0)%N in
      if (cp <=? 1114111)%N then cons cp <$> utf32_decode big_endian b' else None
  | _ => None
  end.

Fixpoint skip (n : nat) (s : string) : string :=
  match n, s with
  | S n', String _ s' => skip n' s'
  | _, _ => s
  end.

Definition decode_as (enc : encoding) (b : string) : option string :=
  match enc with
  | UTF8 => utf8_decode true b ≫= λ _, Some b
  | UTF8_SIG => utf8_decode true (skip 3 b) ≫= λ _, Some (skip 3 b)
  | UTF16 =>
      str_of_codepoints ∘ pair_surrogates None
        <$> utf16_units (startswith BOM_UTF16_BE b) (skip 2 b)
  | UTF16_BE => str_of_codepoints ∘ pair_surrogates None <$> utf16_units true b
  | UTF16_LE => str_of_codepoints ∘ pair_surrogates None <$> utf16_units false b
  | UTF32 => str_of_codepoints <$> utf32_decode (startswith BOM_UTF32_BE b) (skip 4 b)
  | UTF32_BE => str_of_codepoints <$> utf32_decode true b
  | UTF32_LE => str_of_codepoints <$> utf32_decode false b
  end.

(** ** Scanning

    The text is cut into punctuation, strings and atoms.  An atom is a maximal
    run of letters, digits, signs and dots: a number or one of the words the
    decoder knows.  The grammar never lets two values touch, so reading a whole
    run as one atom accepts the same texts as the decoder does. *)

Inductive token :=
| TLBrace | TRBrace | TLBracket | TRBracket | TColon | TComma
| TValue (v : pyval).

Definition dquote : ascii := "034".
Definition backslash : ascii := "092".

Definition is_json_space (c : ascii) : bool :=
  Ascii.eqb c " " || Ascii.eqb c "009" || Ascii.eqb c "010" || Ascii.eqb c "013".

Definition is_alpha (c : ascii) : bool :=
  ((65 <=? byte c) && (byte c <=? 90) || (97 <=? byte c) && (byte c <=? 122))%N.

Definition is_atom_char (c : ascii) : bool :=
  is_alpha c || is_digit c || Ascii.eqb c "+" || Ascii.eqb c "-" || Ascii.eqb c ".".

Definition hex_val (c : ascii) : option N :=
  (if is_digit c then Some (byte c - 48)
   else if (97 <=? byte c) && (byte c <=? 102) then Some (byte c - 87)
   else if (65 <=? byte c) && (byte c <=? 70) then Some (byte c - 55)
   else None)%N.

(** A number literal: an optional minus sign; an integer part that is [0] or
    starts with a non-zero digit; an optional fraction, a dot and at least one
    digit; an optional exponent, [e] or [E], an optional sign and at least one
    digit.  It is an [int] when there is neither fraction nor exponent, else
    [float] of the literal. *)
Definition json_number (s : string) : option pyval :=
  let '(neg, r0) := match s with
                    | String "-" r => (true, r)
                    | _ => (false, s)
                    end in
  let '(ip, r1) := span_digits r0 in
  let int_ok := match ip with
                | EmptyString => false
                | String "0" EmptyString => true
                | String c _ => negb (Ascii.eqb c "0")
                end in
  let '(frac_ok, has_frac, r2) :=
    match r1 with
    | String "." r =>
        let '(fp, r') := span_digits r in (negb (String.eqb fp EmptyString), true, r')
    | _ => (true, false, r1)
    end in
  let '(exp_ok, has_exp) :=
    match r2 with
    | EmptyString => (true, false)
    | String c r3 =>
        if Ascii.eqb c "e" || Ascii.eqb c "E" then
          let r4 := match r3 with
                    | String "+" r | String "-" r => r
                    | _ => r3
                    end in
          let '(ep, r5) := span_digits r4 in
          (negb (String.eqb ep EmptyString) && String.eqb r5 EmptyString, true)
        else (false, false)
    end in
  if int_ok && frac_ok && exp_ok then
    if has_frac || has_exp then VFloat <$> py_float s
    else Some (VInt (if neg then - Z_of_digits ip else Z_of_digits ip))
  else None.

Definition json_atom (s : string) : option pyval :=
  if String.eqb s "null" then Some VNone
  else if String.eqb s "true" then Some (VBool true)
  else if String.eqb s "false" then Some (VBool false)
  else if String.eqb s "NaN" then Some (VFloat S754_nan)
  else if String.eqb s "Infinity" then Some (VFloat (S754_infinity false))
  else if String.eqb s "-Infinity" then Some (VFloat (S754_infinity true))
  else json_number s.

(** The content of a string literal: bytes taken as they are, and the units of
    [\uXXXX] escapes; two escapes that form a surrogate pair are one code
    point. *)
Fixpoint str_of_items (hi : option N) (items : list (ascii + N)) : string :=
  match items with
  | [] => str_of_codepoints (flush hi)
  | inl c :: r => str_of_codepoints (flush hi) +:+ String c (str_of_items None r)
  | inr u :: r =>
      if is_low u && bool_decide (is_Some hi)
      then utf8_encode (join_surrogates (default 0%N hi) u) +:+ str_of_items None r
      else if is_high u then str_of_codepoints (flush hi) +:+ str_of_items (Some u) r
      else str_of_codepoints (flush hi) +:+ utf8_encode u +:+ str_of_items None r
  end.

Inductive lex_state :=
| LIdle
| LAtom (acc : string)
| LStr (acc : list (ascii + N))
| LEsc (acc : list (ascii + N))
| LUni (acc : list (ascii + N)) (k : nat) (u : N).

Definition lex_idle (c : ascii) : option (lex_state * list token) :=
  if is_json_space c then Some (LIdle, [])
  else if Ascii.eqb c "{" then Some (LIdle, [TLBrace])
  else if Ascii.eqb c "}" then Some (LIdle, [TRBrace])
  else if Ascii.eqb c "[" then Some (LIdle, [TLBracket])
  else if Ascii.eqb c "]" then Some (LIdle, [TRBracket])
  else if Ascii.eqb c ":" then Some (LIdle, [TColon])
  else if Ascii.eqb c "," then Some (LIdle, [TComma])
  else if Ascii.eqb c dquote then Some (LStr [], [])
  else if is_atom_char c then Some (LAtom (String c EmptyString), [])
  else None.

Definition lex_escape (c : ascii) : option N :=
  (if Ascii.eqb c dquote || Ascii.eqb c backslash || Ascii.eqb c "/" then Some (byte c)
   else if Ascii.eqb c "b" then Some 8
   else if Ascii.eqb c "f" then Some 12
   else if Ascii.eqb c "n" then Some 10
   else if Ascii.eqb c "r" then Some 13
   else if Ascii.eqb c "t" then Some 9
   else None)%N.

(** Accumulators are kept in reverse. *)
Definition lex_step (st : lex_state) (c : ascii) : option (lex_state * list token) :=
  match st with
  | LIdle => lex_idle c
  | LAtom acc =>
      if is_atom_char c then Some (LAtom (String c acc), [])
      else
        v ← json_atom (String.rev acc);
        '(st', ts) ← lex_idle c;
        Some (st', TValue v :: ts)
  | LStr acc =>
      if Ascii.eqb c dquote
      then Some (LIdle, [TValue (VStr (str_of_items None (List.rev acc)))])
      else if Ascii.eqb c backslash then Some (LEsc acc, [])
      else if (byte c <? 32)%N then None
      else Some (LStr (inl c :: acc), [])
  | LEsc acc =>
      if Ascii.eqb c "u" then Some (LUni acc 0 0%N, [])
      else u ← lex_escape c; Some (LStr (inr u :: acc), [])
  | LUni acc k u =>
      h ← hex_val c;
      let u' := (u * 16 + h)%N in
      if (k =? 3)%nat then Some (LStr (inr u' :: acc), [])
      else Some (LUni acc (S k) u', [])
  end.

Fixpoint lex (st : lex_state) (s : string) : option (list token) :=
  match s with
  | EmptyString =>
      match st with
      | LIdle => Some []
      | LAtom acc => v ← json_atom (String.rev acc); Some [TValue v]
      | _ => None
      end
  | String c s' =>
      '(st', ts) ← lex_step st c;
      (ts ++.) <$> lex st' s'
  end.

(** ** Parsing

    A stack of the containers that are open, and what may come next. *)

Inductive frame :=
| FList (acc : list pyval)
| FDict (acc : list (string * pyval)) (key : option string).

Inductive expect :=
| EValue | EValueOrClose | EKeyOrClose | EKey | EColon | ECommaOrClose
| EDone (v : pyval).

Definition parser : Type := list frame * expect.

(** A complete value goes to the innermost open container. *)
Definition deliver (v : pyval) (stack : list frame) : option parser :=
  match stack with
  | [] => Some ([], EDone v)
  | FList acc :: rest => Some (FList (v :: acc) :: rest, ECommaOrClose)
  | FDict acc (Some k) :: rest => Some (FDict (dict_set k v acc) None :: rest, ECommaOrClose)
  | FDict _ None :: _ => None
  end.

Definition parse_step (p : parser) (t : token) : option parser :=
  let '(stack, e) := p in
  match t, e, stack with
  | TValue v, (EValue | EValueOrClose), _ => deliver v stack
  | TValue (VStr k), (EKeyOrClose | EKey), FDict acc None :: rest =>
      Some (FDict acc (Some k) :: rest, EColon)
  | TLBracket, (EValue | EValueOrClose), _ => Some (FList [] :: stack, EValueOrClose)
  | TLBrace, (EValue | EValueOrClose), _ => Some (FDict [] None :: stack, EKeyOrClose)
  | TRBracket, (EValueOrClose | ECommaOrClose), FList acc :: rest =>
      deliver (VList (List.rev acc)) rest
  | TRBrace, (EKeyOrClose | ECommaOrClose), FDict acc None :: rest =>
      deliver (VDict acc) rest
  | TColon, EColon, _ => Some (stack, EValue)
  | TComma, ECommaOrClose, FList _ :: _ => Some (stack, EValue)
  | TComma, ECommaOrClose, FDict _ _ :: _ => Some (stack, EKey)
  | _, _, _ => None
  end.

Fixpoint parse (p : parser) (ts : list token) : option pyval :=
  match ts with
  | [] => match p with
          | ([], EDone v) => Some v
          | _ => None
          end
  | t :: ts' => p' ← parse_step p t; parse p' ts'
  end.

Definition decode_text (s : string) : result pyval :=
  match lex LIdle s ≫= parse ([], EValue) with
  | Some v => Return v
  | None => Raise JSONDecodeError
  end.

(** [json.loads(s)] *)
Definition loads (s : pyval) : result pyval :=
  match s with
  | VStr s =>
      if startswith BOM_UTF8 s then Raise JSONDecodeError else decode_text s
  | VBytes b =>
      match decode_as (detect_encoding b) b with
      | Some s => decode_text s
      | None => Raise UnicodeDecodeError
      end
  | _ => Raise TypeError
  end.

(** ** [json.dumps]

    With the defaults: separators [", "] and [": "], and every character
    outside printable ASCII escaped. *)

Definition hex_digit (n : N) : ascii :=
  (if n <? 10 then ascii_of_N (48 + n) else ascii_of_N (87 + n))%N.

Definition hex4 (n : N) : string :=
  (String (hex_digit (n / 4096)) (String (hex_digit ((n / 256) mod 16))
     (String (hex_digit ((n / 16) mod 16)) (String (hex_digit (n mod 16))
        EmptyString))))%N.

Definition escape (cp : N) : string :=
  (if cp =? 34 then String backslash (chr 34)
   else if cp =? 92 then String backslash (chr 92)
   else if cp =? 10 then String backslash "n"
   else if cp =? 13 then String backslash "r"
   else if cp =? 9 then String backslash "t"
   else if cp =? 8 then String backslash "b"
   else if cp =? 12 then String backslash "f"
   else if (32 <=? cp) && (cp <=? 126) then chr cp
   else if cp <? 65536 then String backslash ("u" +:+ hex4 cp)
   else
     String backslash ("u" +:+ hex4 (55296 + (cp - 65536) / 1024))
       +:+ String backslash ("u" +:+ hex4 (56320 + (cp - 65536) mod 1024)))%N.

Definition dumps_str (s : string) : string :=
  String dquote
    (fold_right (fun cp r => escape cp +:+ r) (String dquote EmptyString)
       (default [] (utf8_decode true s))).

Definition dumps_float (f : spec_float) : string :=
  match f with
  | S754_nan => "NaN"
  | S754_infinity false => "Infinity"
  | S754_infinity true => "-Infinity"
  | _ => float_repr f
  end.

Fixpoint dumps (v : pyval) : result string :=
  match v with
  | VNone => Return "null"
  | VBool true => Return "true"
  | VBool false => Return "false"
  | VInt z => Return (str_of_int z)
  | VFloat f => Return (dumps_float f)
  | VStr s => Return (dumps_str s)
  | VBytes _ => Raise TypeError
  | VList l =>
      rbind
        ((fix items (first : bool) (l : list pyval) : result string :=
            match l with
            | [] => Return "]"
            | x :: l' =>
                rbind (dumps x) (fun sx =>
                rbind (items false l') (fun r =>
                Return ((if first then EmptyString else ", ") +:+ sx +:+ r)))
            end) true l)
        (fun r => Return ("[" +:+ r))
  | VDict d =>
      rbind
        ((fix items (first : bool) (d : list (string * pyval)) : result string :=
            match d with
            | [] => Return "}"
            | (k, x) :: d' =>
                rbind (dumps x) (fun sx =>
                rbind (items false d') (fun r =>
                Return ((if first then EmptyString else ", ")
                        +:+ dumps_str k +:+ ": " +:+ sx +:+ r)))
            end) true d)
        (fun r => Return ("{" +:+ r))
  end.

End Json.

(** * The Prometheus client, as seen from the exporter

    A [Gauge] is created under a name with one label dimension;
    [g.labels(...).set(v)] overwrites the sample of that label value, and
    [c.labels(...).inc()] adds one to it.  The client's own checks of metric
    and label names are not part of this development. *)
Module Prom.
Import Py.

Record Gauge := {
  gauge_name : string;
  gauge_documentation : string;
  gauge_labelnames : list string;
  gauge_samples : gmap string pyval
}.

Definition new_Gauge (name documentation : string) (labelnames : list string) : Gauge :=
  {| gauge_name := name; gauge_documentation := documentation;
     gauge_labelnames := labelnames; gauge_samples := ∅ |}.

(** [g.labels(label=value).set(v)] *)
Definition gauge_set (value : string) (v : pyval) (g : Gauge) : Gauge :=
  {| gauge_name := gauge_name g; gauge_documentation := gauge_documentation g;
     gauge_labelnames := gauge_labelnames g;
     gauge_samples := <[value := v]> (gauge_samples g) |}.

Record Counter := {
  counter_name : string;
  counter_documentation : string;
  counter_labelnames : list string;
  counter_samples : gmap string nat
}.

Definition new_Counter (name documentation : string) (labelnames : list string) : Counter :=
  {| counter_name := name; counter_documentation := documentation;
     counter_labelnames := labelnames; counter_samples := ∅ |}.

Definition counter_value (value : string) (c : Counter) : nat :=
  default 0%nat (counter_samples c !! value).

(** [c.labels(label=value).inc()] *)
Definition counter_inc (value : string) (c : Counter) : Counter :=
  {| counter_name := counter_name c; counter_documentation := counter_documentation c;
     counter_labelnames := counter_labelnames c;
     counter_samples := <[value := S (counter_value value c)]> (counter_samples c) |}.

End Prom.

(** * The exporter *)
Module Exporter.
Import Py Json Prom.

(** ** State and effects

    The module-level objects of the source that change while it runs: the
    registry [prom_metrics], the counter [prom_msg_counter], and the calls
    made to the logger [LOG], one constructor per call site. *)

Inductive log_record :=
| DebugSeparator
| DebugTopic (topic : string)
| DebugIgnored (topic : string)
| DebugParsingDict (metric : string) (value : pyval)
| DebugFailedToConvert (metric : string) (err : exn)
| InfoCreating (prom_metric_name : string)
| DebugNewValue (prom_metric_name : string) (metric_value : pyval)
| DebugFailedJSON (payload : pyval)
| DebugUndecodable (payload : pyval).

Record state := {
  prom_metrics : gmap string Gauge;
  prom_msg_counter : Counter;
  LOG : list log_record
}.

(** A computation changes the state and returns or raises; what it did to the
    state before raising stays done. *)
Definition M (A : Type) : Type := state -> result A * state.

Definition ret {A} (a : A) : M A := fun st => (Return a, st).

Definition raise {A} (e : exn) : M A := fun st => (Raise e, st).

Definition bind {A B} (m : M A) (k : A -> M B) : M B :=
  fun st =>
    match m st with
    | (Return a, st') => k a st'
    | (Raise e, st') => (Raise e, st')
    end.

Definition lift {A} (r : result A) : M A := fun st => (r, st).

#[global] Instance M_ret : MRet M := @ret.
#[global] Instance M_bind : MBind M := fun A B k m => bind m k.

Definition log (r : log_record) : M unit :=
  fun st =>
    (Return tt,
     {| prom_metrics := prom_metrics st; prom_msg_counter := prom_msg_counter st;
        LOG := LOG st ++ [r] |}).

Definition set_prom_metrics (f : gmap string Gauge -> gmap string Gauge) : M unit :=
  fun st =>
    (Return tt,
     {| prom_metrics := f (prom_metrics st); prom_msg_counter := prom_msg_counter st;
        LOG := LOG st |}).

Definition set_prom_msg_counter (f : Counter -> Counter) : M unit :=
  fun st =>
    (Return tt,
     {| prom_metrics := prom_metrics st; prom_msg_counter := f (prom_msg_counter st);
        LOG := LOG st |}).

(** [prom_metrics.get(name)] *)
Definition prom_metrics_get (name : string) : M (option Gauge) :=
  fun st => (Return (prom_metrics st !! name), st).

(** [prom_metrics[name]] *)
Definition prom_metrics_getitem (name : string) : M Gauge :=
  fun st =>
    match prom_metrics st !! name with
    | Some g => (Return g, st)
    | None => (Raise KeyError, st)
    end.

(** [for x in l: body(x)] *)
Definition for_each {A} (body : A -> M unit) : list A -> M unit :=
  fix loop (l : list A) : M unit :=
    match l with
    | [] => ret tt
    | x :: l' => body x;; loop l'
    end.

(** The message handed to the callback by the MQTT client. *)
Record MQTTMessage := { topic : string; payload : string }.

Section Config.

(** [os.environ] *)
Variable environ : gmap string string.

Definition getenv (name default : string) : string :=
  match environ !! name with
  | Some v => v
  | None => default
  end.

Definition PREFIX : string := getenv "PROMETHEUS_PREFIX" "mqtt_".
Definition TOPIC_LABEL : string := getenv "TOPIC_LABEL" "topic".
Definition TOPIC : string := getenv "MQTT_TOPIC" "#".
Definition IGNORED_TOPICS : list string := split "," (getenv "MQTT_IGNORED_TOPICS" EmptyString).

Definition STATE_VALUES : list (string * Z) :=
  [("ON", 1); ("OFF", 0); ("TRUE", 1); ("FALSE", 0)].

(** [STATE_VALUES.get(data)] *)
Fixpoint lookup_state (table : list (string * Z)) (data : string) : option Z :=
  match table with
  | [] => None
  | (k, v) :: table' => if String.eqb k data then Some v else lookup_state table' data
  end.

(** The state of the objects when the module has been loaded. *)
Definition initial_state : state :=
  {| prom_metrics := ∅;
     prom_msg_counter :=
       new_Counter (PREFIX +:+ "message_total") "Counter of received messages"
         [TOPIC_LABEL];
     LOG := [] |}.

(** ** [_parse_metric] *)
Definition _parse_metric (data : pyval) : result pyval :=
  if isinstance_int_float data then Return data
  else
    rbind (match data with
           | VBytes b => rbind (decode b) (fun s => Return (VStr s))
           | _ => Return data
           end)
      (fun data =>
         match data with
         | VStr s =>
             let data := upper s in
             match lookup_state STATE_VALUES data with
             | Some n => Return (VInt n)
             | None =>
                 match py_float data with
                 | Some f => Return (VFloat f)
                 | None => Raise ValueError
                 end
             end
         | _ => Raise ValueError
         end).

(** The two lines of [_parse_metrics] that build the name of a metric. *)
Definition prom_metric_name (prefix metric : string) : string :=
  re_sub_parens
    (replace " " "_" (replace "." EmptyString (PREFIX +:+ prefix +:+ metric))).

(** The rest of the loop body of [_parse_metrics] for a value that was parsed:
    create the gauge if the registry has none under the name, then set it. *)
Definition expose (metric_name topic : string) (metric_value : pyval) : M unit :=
  found ← prom_metrics_get metric_name;
  match found with
  | None =>
      set_prom_metrics
        <[metric_name :=
            new_Gauge metric_name "metric generated from MQTT message." [TOPIC_LABEL]]>;;
      log (InfoCreating metric_name)
  | Some _ => ret tt
  end;;
  g ← prom_metrics_getitem metric_name;
  set_prom_metrics <[metric_name := gauge_set topic metric_value g]>;;
  log (DebugNewValue metric_name metric_value).

(** ** [_parse_metrics] *)
Fixpoint _parse_metrics (data : pyval) (topic prefix : string) {struct data} : M unit :=
  match data with
  | VDict items =>
      for_each
        (fun '(metric, value) =>
           match value with
           | VDict _ =>
               log (DebugParsingDict metric value);;
               _parse_metrics value topic (prefix +:+ metric +:+ "_")
           | _ =>
               match _parse_metric value with
               | Raise err =>
                   if isinstance_exn err ValueError
                   then log (DebugFailedToConvert metric err)
                   else raise err
               | Return metric_value =>
                   expose (prom_metric_name prefix metric) topic metric_value
               end
           end)
        items
  | _ => raise AttributeError
  end.

(** ** [_normalize_shelly_msg]

    The body of the [try] assigns [topic], then [payload]; what was assigned
    before an [IndexError] is what the function returns. *)
Definition _normalize_shelly_msg (topic payload : string) : result (string * pyval) :=
  let info := split "/" topic in
  match rbind (index info 0) (fun a =>
        rbind (index info 1) (fun b => Return (a +:+ "/" +:+ b))) with
  | Raise e =>
      if isinstance_exn e IndexError then Return (topic, VBytes payload) else Raise e
  | Return topic' =>
      match rbind (index_last info) (fun k =>
            rbind (decode payload) (fun text =>
            dumps (VDict [(k, VStr text)]))) with
      | Raise e =>
          if isinstance_exn e IndexError then Return (topic', VBytes payload) else Raise e
      | Return payload' => Return (topic', VStr payload')
      end
  end.

(** ** [_parse_message]

    [normalize] is its first statement, the Shelly rewrite of the topics that
    contain [shellies].  The pair [(None, None)] of the source is [None]
    here. *)
Definition normalize (topic payload : string) : result (string * pyval) :=
  if contains "shellies" topic
  then _normalize_shelly_msg topic payload
  else Return (topic, VBytes payload).

Definition _parse_message (topic payload : string) : M (option (string * pyval)) :=
  log DebugSeparator;;
  log DebugSeparator;;
  log DebugSeparator;;
  log (DebugTopic topic);;
  tp ← lift (normalize topic payload);
  let '(topic, payload) := tp in
  let topic := replace "/" "_" topic in
  match loads payload with
  | Raise e =>
      if isinstance_exn e JSONDecodeError
      then log (DebugFailedJSON payload);; ret None
      else if isinstance_exn e UnicodeDecodeError
      then log (DebugUndecodable payload);; ret None
      else raise e
  | Return payload =>
      if negb (isinstance_dict payload) then
        let info := split "/" topic in
        k ← lift (index_last info);
        let payload_dict := VDict [(k, payload)] in
        text ← lift (dumps payload_dict);
        ret (Some (topic, VStr text))
      else ret (Some (topic, payload))
  end.

(** ** [expose_metrics] *)
Definition expose_metrics (msg : MQTTMessage) : M unit :=
  log (DebugTopic (topic msg));;
  if bool_decide (topic msg ∈ IGNORED_TOPICS)
  then log (DebugIgnored (topic msg))
  else
    r ← _parse_message (topic msg) (payload msg);
    match r with
    | None => ret tt
    | Some (topic, payload) =>
        if negb (truthy (VStr topic)) || negb (truthy payload) then ret tt
        else
          _parse_metrics payload topic EmptyString;;
          set_prom_msg_counter (counter_inc topic)
    end.

End Config.

End Exporter.
Import Py Json Prom Exporter.

(** * Vocabulary of the properties *)

(** ** Induction on values

    [pyval] is nested in [list]: the hypotheses for lists and dicts give the
    property for every element. *)
Section PyvalInd.

Variable P : pyval -> Prop.
Hypothesis HNone : P VNone.
Hypothesis HBool : forall b, P (VBool b).
Hypothesis HInt : forall z, P (VInt z).
Hypothesis HFloat : forall f, P (VFloat f).
Hypothesis HStr : forall s, P (VStr s).
Hypothesis HBytes : forall b, P (VBytes b).
Hypothesis HList : forall l, Forall P l -> P (VList l).
Hypothesis HDict : forall d, Forall (fun kv => P (snd kv)) d -> P (VDict d).

Fixpoint pyval_ind (v : pyval) : P v :=
  match v with
  | VNone => HNone
  | VBool b => HBool b
  | VInt z => HInt z
  | VFloat f => HFloat f
  | VStr s => HStr s
  | VBytes b => HBytes b
  | VList l =>
      HList l
        ((fix all (l : list pyval) : Forall P l :=
            match l with
            | [] => List.Forall_nil P
            | x :: l' => List.Forall_cons P x l' (pyval_ind x) (all l')
            end) l)
  | VDict d =>
      HDict d
        ((fix all (d : list (string * pyval)) : Forall (fun kv => P (snd kv)) d :=
            match d with
            | [] => List.Forall_nil _
            | kv :: d' => List.Forall_cons _ kv d' (pyval_ind (snd kv)) (all d')
            end) d)
  end.

End PyvalInd.

Section Vocabulary.

Variable environ : gmap string string.

(** ** The scalar coercer *)

(** [s] is the word [w] written in any mix of upper and lower case. *)
Definition case_variant (s w : string) : bool := String.eqb (lower s) w.

Definition state_word (s : string) : bool :=
  case_variant s "on" || case_variant s "off"
  || case_variant s "true" || case_variant s "false".

(** The coercer as the specification words it, on the inputs for which it
    gives a number: a number passes unchanged ([bool] is an [int] in Python); a
    text that is a case variant of on, off, true, false gives 1, 0, 1, 0; any
    other text gives what it parses to as a floating-point literal, when it
    does. *)
Definition coerce_reference (v : pyval) : option pyval :=
  match v with
  | VBool _ | VInt _ | VFloat _ => Some v
  | VStr s =>
      if case_variant s "on" then Some (VInt 1)
      else if case_variant s "off" then Some (VInt 0)
      else if case_variant s "true" then Some (VInt 1)
      else if case_variant s "false" then Some (VInt 0)
      else VFloat <$> py_float s
  | _ => None
  end.

(** The text a value carries: a [str], or [bytes] that decode. *)
Definition text_of (v : pyval) : option string :=
  match v with
  | VStr s => Some s
  | VBytes b => match decode b with
                | Return s => Some s
                | Raise _ => None
                end
  | _ => None
  end.

(** ** The extractor and the registry *)

(** The state once the registry has become [m] and [l] has been logged. *)
Definition after (st : state) (m : gmap string Gauge) (l : list log_record) : state :=
  {| prom_metrics := m; prom_msg_counter := prom_msg_counter st; LOG := LOG st ++ l |}.

(** The registry after one field has been exposed. *)
Definition store (topic : string) (m : gmap string Gauge) (leaf : string * pyval)
  : gmap string Gauge :=
  <[leaf.1 :=
      gauge_set topic leaf.2
        (default
           (new_Gauge leaf.1 "metric generated from MQTT message." [TOPIC_LABEL environ])
           (m !! leaf.1))]> m.

(** The body of the loop of [_parse_metrics]. *)
Definition field (topic prefix : string) (item : string * pyval) : M unit :=
  let '(metric, value) := item in
  match value with
  | VDict _ =>
      log (DebugParsingDict metric value);;
      _parse_metrics environ value topic (prefix +:+ metric +:+ "_")
  | _ =>
      match _parse_metric value with
      | Raise err =>
          if isinstance_exn err ValueError
          then log (DebugFailedToConvert metric err)
          else raise err
      | Return metric_value =>
          expose environ (prom_metric_name environ prefix metric) topic metric_value
      end
  end.

(** The fields of a payload that the extractor exposes, in its order: the
    name of the metric and the number. *)
Fixpoint leaves (data : pyval) (prefix : string) {struct data} : list (string * pyval) :=
  match data with
  | VDict items =>
      flat_map
        (fun '(metric, value) =>
           match value with
           | VDict _ => leaves value (prefix +:+ metric +:+ "_")
           | _ =>
               match _parse_metric value with
               | Return metric_value =>
                   [(prom_metric_name environ prefix metric, metric_value)]
               | Raise _ => []
               end
           end)
        items
  | _ => []
  end.

Definition leaf (prefix : string) (item : string * pyval) : list (string * pyval) :=
  let '(metric, value) := item in
  match value with
  | VDict _ => leaves value (prefix +:+ metric +:+ "_")
  | _ =>
      match _parse_metric value with
      | Return metric_value => [(prom_metric_name environ prefix metric, metric_value)]
      | Raise _ => []
      end
  end.

(** The records the extractor logs. *)
Definition extractor_record (r : log_record) : Prop :=
  match r with
  | DebugParsingDict _ _ | DebugFailedToConvert _ _
  | InfoCreating _ | DebugNewValue _ _ => True
  | _ => False
  end.

(** A computation that returns, having brought the registry from [m] to
    [f m] and logged records of the extractor only. *)
Definition exposes (c : M unit) (f : gmap string Gauge -> gmap string Gauge) : Prop :=
  forall st, exists l,
    c st = (Return tt, after st (f (prom_metrics st)) l)
    /\ Forall extractor_record l.

(** ** The pipeline *)

(** A computation that only logs: it ends as [r], and the records it logged
    all satisfy [P]. *)
Definition logs_only {A} (P : log_record -> Prop) (c : M A) (r : result A) : Prop :=
  forall st, exists l,
    c st = (r, after st (prom_metrics st) l) /\ Forall P l.

(** The records [_parse_message] logs. *)
Definition parser_record (r : log_record) : Prop :=
  match r with
  | DebugSeparator | DebugTopic _ | DebugFailedJSON _ | DebugUndecodable _ => True
  | _ => False
  end.

(** What [_parse_message] returns or raises; the state plays no part in it. *)
Definition message_of (topic payload : string) : result (option (string * pyval)) :=
  rbind (normalize topic payload) (fun '(topic, payload) =>
    let topic := replace "/" "_" topic in
    match loads payload with
    | Raise e =>
        if isinstance_exn e JSONDecodeError || isinstance_exn e UnicodeDecodeError
        then Return None else Raise e
    | Return payload =>
        if negb (isinstance_dict payload) then
          rbind (index_last (split "/" topic)) (fun k =>
          rbind (dumps (VDict [(k, payload)])) (fun text =>
          Return (Some (topic, VStr text))))
        else Return (Some (topic, payload))
    end).

(** What becomes of a message. *)
Inductive verdict :=
| Ignored
| Dropped
| Failed (e : exn)
| Extracted (topic : string) (payload : pyval).

Definition verdict_of (msg : MQTTMessage) : verdict :=
  if bool_decide (topic msg ∈ IGNORED_TOPICS environ) then Ignored
  else
    match message_of (topic msg) (payload msg) with
    | Raise e => Failed e
    | Return None => Dropped
    | Return (Some (t, p)) =>
        if negb (truthy (VStr t)) || negb (truthy p) then Dropped else Extracted t p
    end.

(** The state a message leaves behind, but for the log. *)
Definition metrics_after (msg : MQTTMessage) (m : gmap string Gauge) : gmap string Gauge :=
  match verdict_of msg with
  | Extracted t (VDict items) => fold_left (store t) (leaves (VDict items) EmptyString) m
  | _ => m
  end.

Definition counter_after (msg : MQTTMessage) (c : Counter) : Counter :=
  match verdict_of msg with
  | Extracted t (VDict _) => counter_inc t c
  | _ => c
  end.

Definition outcome (msg : MQTTMessage) : result unit :=
  match verdict_of msg with
  | Failed e => Raise e
  | Extracted _ (VDict _) => Return tt
  | Extracted _ _ => Raise AttributeError
  | _ => Return tt
  end.


(** ** Messages of the examples *)

(** A JSON text for the examples: [quote s] is [s] between double quotes. *)
Definition quote (s : string) : string := String dquote (s +:+ String dquote EmptyString).

Definition lamp_message : MQTTMessage :=
  {| topic := "zigbee2mqtt/lamp";
     payload := "{" +:+ quote "state" +:+ ": " +:+ quote "ON" +:+ "}" |}.

(** Neither the registry nor the counter has changed. *)
Definition unchanged (st st' : state) : Prop :=
  prom_metrics st' = prom_metrics st /\ prom_msg_counter st' = prom_msg_counter st.

(** ** Field paths and metric names *)




(** [c] does not occur in [s]. *)
Fixpoint lacks (c : ascii) (s : string) : bool :=
  match s with
  | EmptyString => true
  | String c' s' => negb (Ascii.eqb c' c) && lacks c s'
  end.

(** A key that the sanitisation leaves as it is. *)
Definition plain (s : string) : bool :=
  lacks "." s && lacks " " s && lacks "(" s && lacks ")" s.

(** The keys of a path, joined by ["_"]. *)
Fixpoint joined (path : list string) : string :=
  match path with
  | [] => EmptyString
  | [metric] => metric
  | key :: path' => key +:+ "_" +:+ joined path'
  end.

Definition shelly_message : MQTTMessage :=
  {| topic := "shellies/kitchen/temperature"; payload := "20.5" |}.

(** 20.5, the float nearest to [205 * 10 ^ -1]. *)
Definition float_20_5 : spec_float := float_of_decimal false 205 (-1).

End Vocabulary.

(** * Vocabulary of the further properties *)

(** The sample of the gauge [name] for the label value [label]. *)
Definition sample (st : state) (name label : string) : option pyval :=
  match prom_metrics st !! name with
  | Some g => gauge_samples g !! label
  | None => None
  end.

(** [sep.join(l)] for a one-character [sep]. *)
Fixpoint join (sep : ascii) (l : list string) : string :=
  match l with
  | [] => EmptyString
  | [s] => s
  | s :: l' => s +:+ String sep (join sep l')
  end.

(** Every gauge of the registry is stored under its own name, has the label
    dimension of the configuration and no other, and holds numbers only. *)
Definition registry_ok (environ : gmap string string) (m : gmap string Gauge) : Prop :=
  forall name g, m !! name = Some g ->
    gauge_name g = name
    /\ gauge_labelnames g = [TOPIC_LABEL environ]
    /\ forall label v, gauge_samples g !! label = Some v -> isinstance_int_float v = true.

(** No [bytes] anywhere in a value. *)
Fixpoint bytes_free (v : pyval) : bool :=
  match v with
  | VBytes _ => false
  | VList l => forallb bytes_free l
  | VDict d => forallb (fun kv => bytes_free (snd kv)) d
  | _ => true
  end.

(** Well-formed text: UTF-8 with no surrogate in it. *)
Definition is_text (s : string) : bool :=
  match utf8_decode false s with
  | Some _ => true
  | None => false
  end.




(** A token that carries no [bytes]. *)
Definition token_ok (t : token) : Prop :=
  match t with
  | TValue v => bytes_free v = true
  | _ => True
  end.

Definition frame_ok (f : frame) : Prop :=
  match f with
  | FList acc => forallb bytes_free acc = true
  | FDict acc _ => forallb (fun kv => bytes_free (snd kv)) acc = true
  end.

Definition parser_ok (p : parser) : Prop :=
  Forall frame_ok p.1
  /\ match p.2 with
     | EDone v => bytes_free v = true
     | _ => True
     end.

(** * Properties *)

(** ** Case of letters *)

Lemma ascii_lower_upper c : ascii_lower (ascii_upper c) = ascii_lower c.
Proof. destruct c as [[] [] [] [] [] [] [] []]; reflexivity. Qed.

Lemma ascii_upper_lower c : ascii_upper (ascii_lower c) = ascii_upper c.
Proof. destruct c as [[] [] [] [] [] [] [] []]; reflexivity. Qed.

Lemma lower_upper s : lower (upper s) = lower s.
Proof.
  induction s as [|c s IH]; [reflexivity|].
  cbn. rewrite ascii_lower_upper. f_equal. exact IH.
Qed.

Lemma upper_lower s : upper (lower s) = upper s.
Proof.
  induction s as [|c s IH]; [reflexivity|].
  cbn. rewrite ascii_upper_lower. f_equal. exact IH.
Qed.

(** [float] reads a text and its upper-case form alike. *)
Lemma py_float_upper s : py_float (upper s) = py_float s.
Proof. unfold py_float. now rewrite lower_upper. Qed.

(** A text is, up to case, the lower-case word [w] exactly when its upper-case
    form is the upper-case form of [w]. *)
Lemma eqb_upper_lower s w :
  lower w = w -> String.eqb (upper w) (upper s) = String.eqb (lower s) w.
Proof.
  intros Hw. apply eq_true_iff_eq. rewrite !String.eqb_eq. split.
  - intros H. rewrite <- (lower_upper s), <- H, lower_upper. exact Hw.
  - intros H. rewrite <- H, upper_lower. reflexivity.
Qed.

(** ** The scalar coercer, [_parse_metric] *)

Lemma lookup_state_upper s :
  lookup_state STATE_VALUES (upper s) =
  if case_variant s "on" then Some 1
  else if case_variant s "off" then Some 0
  else if case_variant s "true" then Some 1
  else if case_variant s "false" then Some 0
  else None.
Proof.
  unfold case_variant, STATE_VALUES, lookup_state.
  rewrite <- (eqb_upper_lower s "on"), <- (eqb_upper_lower s "off"),
    <- (eqb_upper_lower s "true"), <- (eqb_upper_lower s "false") by reflexivity.
  change (upper "on") with "ON". change (upper "off") with "OFF".
  change (upper "true") with "TRUE". change (upper "false") with "FALSE".
  repeat (destruct (String.eqb _ (upper s)); [reflexivity|]). reflexivity.
Qed.

Lemma parse_metric_text s :
  _parse_metric (VStr s) =
  if case_variant s "on" then Return (VInt 1)
  else if case_variant s "off" then Return (VInt 0)
  else if case_variant s "true" then Return (VInt 1)
  else if case_variant s "false" then Return (VInt 0)
  else match py_float s with
       | Some f => Return (VFloat f)
       | None => Raise ValueError
       end.
Proof.
  unfold _parse_metric. cbn -[lookup_state STATE_VALUES py_float upper].
  rewrite lookup_state_upper, py_float_upper.
  repeat (destruct (case_variant s _); [reflexivity|]). reflexivity.
Qed.

Lemma parse_metric_no_word s :
  state_word s = false ->
  _parse_metric (VStr s) =
  match py_float s with
  | Some f => Return (VFloat f)
  | None => Raise ValueError
  end.
Proof.
  rewrite parse_metric_text. unfold state_word.
  repeat (destruct (case_variant s _); [discriminate|]). reflexivity.
Qed.

(** C7.  The scalar coercer agrees with the reference function of the
    specification wherever that gives a number: a number is returned as it
    is, every case variant of on / off / true / false gives 1 / 0 / 1 / 0, any
    other text that parses as a floating-point literal gives that float.  It
    is a function of its argument alone: the embedding of [_parse_metric]
    takes no state and returns none, as the source reads nothing but [data]
    and the constant table. *)
Theorem parse_metric_reference (v r : pyval) :
  coerce_reference v = Some r -> _parse_metric v = Return r.
Proof.
  destruct v as [| b | z | f | s | b | l | d]; try discriminate;
    try (intros [= <-]; reflexivity).
  unfold coerce_reference. rewrite parse_metric_text.
  repeat (destruct (case_variant s _); [intros [= <-]; reflexivity|]).
  destruct (py_float s) as [f|]; [|discriminate].
  intros [= <-]. reflexivity.
Qed.

Lemma parse_metric_reference_witness :
  _parse_metric (VStr "oN") = Return (VInt 1)
  /\ _parse_metric (VStr "1e3") = Return (VFloat (float_of_decimal false 1 3)).
Proof.
  split.
  - apply (parse_metric_reference (VStr "oN")). reflexivity.
  - apply (parse_metric_reference (VStr "1e3")). reflexivity.
Defined.

Lemma parse_metric_bytes b :
  _parse_metric (VBytes b) = rbind (decode b) (fun s => _parse_metric (VStr s)).
Proof.
  unfold _parse_metric. cbn [isinstance_int_float].
  destruct (decode b); reflexivity.
Qed.

Lemma parse_metric_raises v e :
  _parse_metric v = Raise e -> isinstance_exn e ValueError = true.
Proof.
  assert (Htext : forall s, _parse_metric (VStr s) = Raise e -> e = ValueError).
  { intros s. rewrite parse_metric_text.
    repeat (destruct (case_variant s _); [discriminate|]).
    destruct (py_float s); [discriminate|]. congruence. }
  destruct v as [| b | z | f | s | b | l | d];
    try (intros [= <-]; reflexivity); try discriminate.
  - intros H%Htext. now subst.
  - rewrite parse_metric_bytes.
    unfold decode. destruct (utf8_decode false b); cbn [rbind].
    + intros H%Htext. now subst.
    + intros [= <-]. reflexivity.
Qed.

(** C8.  A value that is not a number, and whose text, if it has one, is
    neither recognised in the state table nor parseable as a float, is
    refused: [_parse_metric] raises, and the exception is a [ValueError].  The
    text is taken in upper case, as the coercer reads it; [float] reads a text
    and its upper-case form alike ([py_float_upper]). *)
Theorem parse_metric_not_numeric (v : pyval) :
  isinstance_int_float v = false ->
  (forall s, text_of v = Some s ->
     lookup_state STATE_VALUES (upper s) = None /\ py_float (upper s) = None) ->
  exists e, _parse_metric v = Raise e /\ isinstance_exn e ValueError = true.
Proof.
  intros Hnum Htext.
  assert (Hstr : forall s,
    lookup_state STATE_VALUES (upper s) = None -> py_float (upper s) = None ->
    _parse_metric (VStr s) = Raise ValueError).
  { intros s Hw Hf. unfold _parse_metric.
    cbn -[lookup_state STATE_VALUES py_float upper]. now rewrite Hw, Hf. }
  destruct v as [| b | z | f | s | b | l | d]; try discriminate;
    try (exists ValueError; split; reflexivity).
  - destruct (Htext s eq_refl) as [Hw Hf].
    exists ValueError. split; [now apply Hstr | reflexivity].
  - rewrite parse_metric_bytes. cbn [text_of] in Htext.
    destruct (decode b) as [s|e] eqn:Hd; cbn [rbind].
    + destruct (Htext s eq_refl) as [Hw Hf].
      exists ValueError. split; [now apply Hstr | reflexivity].
    + exists e. split; [reflexivity|].
      unfold decode in Hd. destruct (utf8_decode false b); [discriminate|].
      injection Hd as <-. reflexivity.
Qed.

Lemma parse_metric_not_numeric_witness :
  exists e, _parse_metric (VStr "notanumber") = Raise e
            /\ isinstance_exn e ValueError = true.
Proof.
  apply (parse_metric_not_numeric (VStr "notanumber")).
  - reflexivity.
  - intros s [= <-]. split; reflexivity.
Defined.

(** In the words of the text itself: a text that is no case variant of a state
    word and does not parse as a float is refused. *)
Lemma parse_metric_unparseable s :
  state_word s = false -> py_float s = None ->
  _parse_metric (VStr s) = Raise ValueError.
Proof. intros Hw Hf. now rewrite (parse_metric_no_word s Hw), Hf. Qed.

(** ** The extractor, [_parse_metrics] *)

Section Extractor.

Variable environ : gmap string string.

Lemma parse_metrics_dict items topic prefix :
  _parse_metrics environ (VDict items) topic prefix
  = for_each (field environ topic prefix) items.
Proof. reflexivity. Qed.

Lemma leaves_dict items prefix :
  leaves environ (VDict items) prefix = flat_map (leaf environ prefix) items.
Proof. reflexivity. Qed.

Lemma after_after st m l m' l' : after (after st m l) m' l' = after st m' (l ++ l').
Proof. unfold after. cbn. now rewrite app_assoc. Qed.

Lemma after_id st : after st (prom_metrics st) [] = st.
Proof. destruct st. unfold after. cbn. now rewrite app_nil_r. Qed.

Lemma log_run r st : log r st = (Return tt, after st (prom_metrics st) [r]).
Proof. reflexivity. Qed.

Lemma bind_run {A B} (m : M A) (k : A -> M B) st :
  (m ≫= k) st =
  match m st with
  | (Return a, st') => k a st'
  | (Raise e, st') => (Raise e, st')
  end.
Proof. reflexivity. Qed.

Lemma expose_run name topic v st :
  exists l,
    expose environ name topic v st
    = (Return tt, after st (store environ topic (prom_metrics st) (name, v)) l)
    /\ Forall extractor_record l.
Proof.
  unfold expose, store. rewrite bind_run. unfold prom_metrics_get. cbn [fst snd].
  destruct (prom_metrics st !! name) as [g|] eqn:Hg.
  - exists [DebugNewValue name v]. split; [|repeat constructor].
    rewrite bind_run. unfold mret, M_ret, ret. rewrite bind_run.
    unfold prom_metrics_getitem. rewrite Hg. rewrite bind_run. reflexivity.
  - exists [InfoCreating name; DebugNewValue name v]. split; [|repeat constructor].
    unfold mbind, M_bind, bind, set_prom_metrics, log, prom_metrics_getitem, after.
    cbn [prom_metrics prom_msg_counter LOG default].
    rewrite lookup_insert_eq. cbn [prom_metrics prom_msg_counter LOG].
    rewrite insert_insert_eq, <- app_assoc. reflexivity.
Qed.

Lemma exposes_ret : exposes (ret tt) id.
Proof.
  intros st. exists []. split; [|constructor].
  unfold ret, id. now rewrite after_id.
Qed.

Lemma exposes_log r : extractor_record r -> exposes (log r) id.
Proof. intros Hr st. exists [r]. split; [reflexivity | repeat constructor; exact Hr]. Qed.

Lemma exposes_seq c1 c2 f1 f2 :
  exposes c1 f1 -> exposes c2 f2 -> exposes (c1;; c2) (f2 ∘ f1).
Proof.
  intros H1 H2 st. destruct (H1 st) as (l1 & E1 & F1).
  destruct (H2 (after st (f1 (prom_metrics st)) l1)) as (l2 & E2 & F2).
  exists (l1 ++ l2). split; [|now apply Forall_app].
  rewrite bind_run, E1, E2, after_after. reflexivity.
Qed.

Lemma exposes_for_each topic (body : string * pyval -> M unit)
    (f : string * pyval -> list (string * pyval)) items :
  Forall (fun item => exposes (body item) (fun m => fold_left (store environ topic) (f item) m))
    items ->
  exposes (for_each body items) (fun m => fold_left (store environ topic) (flat_map f items) m).
Proof.
  induction 1 as [|item items Hitem _ IH]; [exact exposes_ret|].
  intros st. destruct (exposes_seq _ _ _ _ Hitem IH st) as (l & E & F).
  exists l. split; [|exact F].
  cbn [for_each flat_map]. rewrite fold_left_app. exact E.
Qed.

(** The extractor on a mapping: it returns, and the registry is the one before
    with the exposed fields stored in order. *)
Lemma parse_metrics_exposes data :
  forall topic prefix,
    isinstance_dict data = true ->
    exposes (_parse_metrics environ data topic prefix)
      (fun m => fold_left (store environ topic) (leaves environ data prefix) m).
Proof.
  induction data as [| | | | | | |items IH] using pyval_ind; try discriminate.
  intros topic prefix _. rewrite parse_metrics_dict, leaves_dict.
  apply exposes_for_each. revert prefix.
  induction IH as [|[metric value] items Hvalue _ IHitems]; intros prefix;
    constructor; [|apply IHitems].
  cbn [snd] in Hvalue.
  assert (Hleaf : forall value, isinstance_dict value = false ->
    exposes
      (match _parse_metric value with
       | Raise err =>
           if isinstance_exn err ValueError
           then log (DebugFailedToConvert metric err) else raise err
       | Return metric_value =>
           expose environ (prom_metric_name environ prefix metric) topic metric_value
       end)
      (fun m => fold_left (store environ topic)
         (match _parse_metric value with
          | Return metric_value =>
              [(prom_metric_name environ prefix metric, metric_value)]
          | Raise _ => []
          end) m)).
  { intros w _. destruct (_parse_metric w) as [mv|err] eqn:Hw.
    - intros st. apply expose_run.
    - rewrite (parse_metric_raises _ _ Hw). now apply exposes_log. }
  destruct value; try (apply Hleaf; reflexivity).
  unfold field, leaf.
  apply (exposes_seq _ _ id); [now apply exposes_log|].
  apply Hvalue. reflexivity.
Qed.

End Extractor.

(** ** The pipeline, [_parse_message] and [expose_metrics] *)

Lemma logs_only_ret {A} P (a : A) : logs_only P (ret a) (Return a).
Proof.
  intros st. exists []. split; [|constructor]. unfold ret. now rewrite after_id.
Qed.

Lemma logs_only_raise {A} P e : logs_only P (@raise A e) (Raise e).
Proof.
  intros st. exists []. split; [|constructor]. unfold raise. now rewrite after_id.
Qed.

Lemma logs_only_lift {A} P (r : result A) : logs_only P (lift r) r.
Proof.
  intros st. exists []. split; [|constructor]. unfold lift. now rewrite after_id.
Qed.

Lemma logs_only_log (P : log_record -> Prop) r :
  P r -> logs_only P (log r) (Return tt).
Proof. intros Hr st. exists [r]. split; [reflexivity | repeat constructor; exact Hr]. Qed.

Lemma logs_only_bind {A B} P (c : M A) (k : A -> M B) a r :
  logs_only P c (Return a) -> logs_only P (k a) r -> logs_only P (c ≫= k) r.
Proof.
  intros H1 H2 st. destruct (H1 st) as (l1 & E1 & F1).
  destruct (H2 (after st (prom_metrics st) l1)) as (l2 & E2 & F2).
  exists (l1 ++ l2). split; [|now apply Forall_app].
  rewrite bind_run, E1, E2, after_after. reflexivity.
Qed.

Lemma logs_only_bind_raise {A B} P (c : M A) (k : A -> M B) e :
  logs_only P c (Raise e) -> logs_only P (c ≫= k) (Raise e).
Proof.
  intros H1 st. destruct (H1 st) as (l1 & E1 & F1).
  exists l1. split; [|exact F1]. rewrite bind_run, E1. reflexivity.
Qed.

Section Pipeline.

Variable environ : gmap string string.

Lemma parse_message_logs topic payload :
  logs_only parser_record (_parse_message topic payload) (message_of topic payload).
Proof.
  unfold _parse_message, message_of.
  do 4 (eapply logs_only_bind; [apply logs_only_log; exact I|]).
  destruct (normalize topic payload) as [[t p]|e] eqn:Hn; cbn [rbind].
  2:{ apply logs_only_bind_raise, logs_only_lift. }
  eapply logs_only_bind; [apply logs_only_lift|]. cbv beta iota zeta.
  destruct (loads p) as [v|e] eqn:Hl.
  - destruct (isinstance_dict v); cbn [negb]; [apply logs_only_ret|].
    destruct (index_last (split "/" (replace "/" "_" t))) as [k|e] eqn:Hk; cbn [rbind].
    2:{ apply logs_only_bind_raise, logs_only_lift. }
    eapply logs_only_bind; [apply logs_only_lift|].
    destruct (dumps (VDict [(k, v)])) as [text|e] eqn:Hd; cbn [rbind].
    2:{ apply logs_only_bind_raise, logs_only_lift. }
    eapply logs_only_bind; [apply logs_only_lift|]. apply logs_only_ret.
  - destruct (isinstance_exn e JSONDecodeError); cbn [orb].
    { eapply logs_only_bind; [apply logs_only_log; exact I | apply logs_only_ret]. }
    destruct (isinstance_exn e UnicodeDecodeError).
    { eapply logs_only_bind; [apply logs_only_log; exact I | apply logs_only_ret]. }
    apply logs_only_raise.
Qed.

Lemma expose_metrics_run msg st :
  exists l,
    expose_metrics environ msg st
    = (outcome environ msg,
       {| prom_metrics := metrics_after environ msg (prom_metrics st);
          prom_msg_counter := counter_after environ msg (prom_msg_counter st);
          LOG := LOG st ++ DebugTopic (topic msg) :: l |})
    /\ (verdict_of environ msg = Ignored -> l = [DebugIgnored (topic msg)])
    /\ (verdict_of environ msg <> Ignored ->
        Forall (fun r => parser_record r \/ extractor_record r) l).
Proof.
  unfold expose_metrics, outcome, metrics_after, counter_after, verdict_of.
  rewrite bind_run, log_run.
  destruct (bool_decide (topic msg ∈ IGNORED_TOPICS environ)).
  { exists [DebugIgnored (topic msg)]. split; [|split; [reflexivity|congruence]].
    rewrite log_run. unfold after. cbn. now rewrite <- app_assoc. }
  set (st1 := after st (prom_metrics st) [DebugTopic (topic msg)]).
  destruct (parse_message_logs (topic msg) (payload msg) st1) as (l1 & E1 & F1).
  assert (F1' : Forall (fun r => parser_record r \/ extractor_record r) l1).
  { eapply Forall_impl; [exact F1|]. intros r Hr. now left. }
  rewrite bind_run, E1. unfold st1. rewrite after_after.
  change (prom_metrics (after st (prom_metrics st) [DebugTopic (topic msg)]))
    with (prom_metrics st).
  destruct (message_of (topic msg) (payload msg)) as [[[t p]|]|e].
  - destruct (negb (truthy (VStr t)) || negb (truthy p)).
    { exists l1. split; [|split; [discriminate | intros _; exact F1']].
      reflexivity. }
    destruct (isinstance_dict p) eqn:Hp.
    + destruct (parse_metrics_exposes environ p t EmptyString Hp
                  (after st (prom_metrics st) ([DebugTopic (topic msg)] ++ l1)))
        as (l2 & E2 & F2).
      destruct p; try discriminate.
      exists (l1 ++ l2). split; [|split; [discriminate|intros _]].
      * rewrite bind_run, E2. unfold set_prom_msg_counter, after. cbn.
        now rewrite <- ?app_assoc.
      * apply Forall_app. split; [exact F1'|].
        eapply Forall_impl; [exact F2|]. intros r Hr. now right.
    + exists l1. split; [|split; [destruct p; discriminate | intros _; exact F1']].
      rewrite bind_run.
      destruct p; try discriminate; reflexivity.
  - exists l1. split; [|split; [discriminate | intros _; exact F1']].
    reflexivity.
  - exists l1. split; [|split; [discriminate | intros _; exact F1']].
    reflexivity.
Qed.

End Pipeline.

(** ** Storing fields in the registry *)

Section Store.

Variable environ : gmap string string.
Variable topic : string.











End Store.

(** ** A field that cannot be coerced *)





(** ** Ingesting a message again *)

Lemma counter_value_inc label label' c :
  counter_value label' (counter_inc label c)
  = if decide (label = label') then S (counter_value label' c) else counter_value label' c.
Proof.
  unfold counter_value at 1. unfold counter_inc. cbn [counter_samples].
  destruct (decide (label = label')) as [<-|Hne].
  - now rewrite lookup_insert_eq.
  - now rewrite lookup_insert_ne.
Qed.

Lemma parse_message_result topic payload st :
  (_parse_message topic payload st).1 = message_of topic payload.
Proof.
  destruct (parse_message_logs topic payload st) as (l & E & _). now rewrite E.
Qed.

Lemma verdict_extracted environ msg t item items :
  topic msg ∉ IGNORED_TOPICS environ ->
  message_of (topic msg) (payload msg) = Return (Some (t, VDict (item :: items))) ->
  t <> EmptyString ->
  verdict_of environ msg = Extracted t (VDict (item :: items)).
Proof.
  intros Hin Hmsg Ht. unfold verdict_of.
  rewrite bool_decide_eq_false_2 by exact Hin. rewrite Hmsg.
  cbn [truthy negb orb].
  destruct (String.eqb_spec t EmptyString) as [->|_]; [contradiction|reflexivity].
Qed.




(** Membership in the ignore list, by computation. *)
Lemma not_ignored environ (t : string) :
  bool_decide (t ∈ IGNORED_TOPICS environ) = false -> t ∉ IGNORED_TOPICS environ.
Proof. apply bool_decide_eq_false_1. Qed.


(** ** The message counter *)

Lemma replace_nonempty old new s :
  new <> EmptyString -> s <> EmptyString -> replace old new s <> EmptyString.
Proof.
  intros Hnew Hs. destruct s as [|c s]; [contradiction|]. cbn [replace].
  destruct (Ascii.eqb c old); [|discriminate].
  destruct new; [contradiction|discriminate].
Qed.

Lemma normalize_nonempty topic payload t p :
  topic <> EmptyString -> normalize topic payload = Return (t, p) -> t <> EmptyString.
Proof.
  intros Htopic. unfold normalize, _normalize_shelly_msg.
  assert (Hjoin : forall a b, a +:+ "/" +:+ b <> EmptyString).
  { intros [|c a] b; discriminate. }
  destruct (contains "shellies" topic); [|intros [= <- _]; exact Htopic].
  destruct (index (split "/" topic) 0) as [a|e]; cbn [rbind].
  2:{ destruct (isinstance_exn e IndexError); [|discriminate].
      intros [= <- _]. exact Htopic. }
  destruct (index (split "/" topic) 1) as [b|e]; cbn [rbind].
  2:{ destruct (isinstance_exn e IndexError); [|discriminate].
      intros [= <- _]. exact Htopic. }
  destruct (rbind _ _) as [text|e].
  - intros [= <- _]. apply Hjoin.
  - destruct (isinstance_exn e IndexError); [|discriminate].
    intros [= <- _]. apply Hjoin.
Qed.




(** ** The ignore check *)

Lemma verdict_ignored environ msg :
  verdict_of environ msg = Ignored <-> topic msg ∈ IGNORED_TOPICS environ.
Proof.
  unfold verdict_of. destruct (bool_decide_reflect (topic msg ∈ IGNORED_TOPICS environ)).
  - tauto.
  - split; [|contradiction].
    destruct (message_of _ _) as [[[t p]|]|e]; try discriminate.
    destruct (_ || _); discriminate.
Qed.

(** C5, as the code has it.  [expose_metrics] logs the origin, and then drops
    the message at once, logging that it was ignored and touching neither
    the registry nor the counter, exactly when the origin is an element of
    [IGNORED_TOPICS], compared as a whole string.  With no
    [MQTT_IGNORED_TOPICS] in the environment that list is the split of the
    empty text, which holds the empty origin and nothing else: by default
    the check drops no origin but the empty one. *)
Theorem ignore_check environ msg st :
  (exists l,
      LOG (expose_metrics environ msg st).2 = LOG st ++ DebugTopic (topic msg) :: l
      /\ (DebugIgnored (topic msg) ∈ l <-> topic msg ∈ IGNORED_TOPICS environ)
      /\ (topic msg ∈ IGNORED_TOPICS environ ->
            l = [DebugIgnored (topic msg)]
            /\ (expose_metrics environ msg st).1 = Return tt
            /\ unchanged st (expose_metrics environ msg st).2))
  /\ IGNORED_TOPICS ∅ = [EmptyString]
  /\ (topic msg ∈ IGNORED_TOPICS ∅ <-> topic msg = EmptyString).
Proof.
  split; [|split; [reflexivity|]].
  2:{ change (IGNORED_TOPICS ∅) with [EmptyString]. apply list_elem_of_singleton. }
  destruct (expose_metrics_run environ msg st) as (l & E & Hyes & Hno).
  exists l. rewrite E. cbn [fst snd LOG]. split; [reflexivity|].
  destruct (decide (topic msg ∈ IGNORED_TOPICS environ)) as [Hin|Hin].
  - pose proof (proj2 (verdict_ignored environ msg) Hin) as Hv.
    rewrite (Hyes Hv). split.
    + split; [intros _; exact Hin | intros _; now apply list_elem_of_singleton].
    + intros _. unfold unchanged, outcome, metrics_after, counter_after.
      rewrite Hv. repeat split.
  - split; [|contradiction]. split; [|contradiction].
    intros Hl. exfalso.
    assert (Hv : verdict_of environ msg <> Ignored).
    { intros Hv. apply Hin, verdict_ignored, Hv. }
    specialize (Hno Hv). rewrite Forall_forall in Hno.
    destruct (Hno _ Hl) as [[]|[]].
Qed.

(** The claim of C5 fails on the default configuration: the list of ignored
    origins is not empty, and the message with the empty origin is dropped by
    the check. *)
Lemma default_ignores_empty_origin :
  IGNORED_TOPICS ∅ <> []
  /\ LOG (expose_metrics ∅ {| topic := EmptyString; payload := payload lamp_message |}
            (initial_state ∅)).2
     = [DebugTopic EmptyString; DebugIgnored EmptyString].
Proof. split; [discriminate | reflexivity]. Qed.

(** ** The names of metrics *)


(** *** Strings *)

Lemma append_cons c s t : String c s +:+ t = String c (s +:+ t).
Proof. reflexivity. Qed.


Lemma lacks_app c s t : lacks c (s +:+ t) = lacks c s && lacks c t.
Proof.
  induction s as [|c' s IH]; [reflexivity|].
  rewrite append_cons. cbn [lacks]. now rewrite IH, andb_assoc.
Qed.





Lemma plain_app s t : plain s = true -> plain t = true -> plain (s +:+ t) = true.
Proof.
  unfold plain. rewrite !lacks_app, !andb_true_iff. tauto.
Qed.


Lemma joined_plain path : Forall (fun k => plain k = true) path -> plain (joined path) = true.
Proof.
  induction 1 as [|key path Hkey _ IH]; [reflexivity|].
  destruct path as [|key' path]; [exact Hkey|].
  change (joined (key :: key' :: path)) with (key +:+ "_" +:+ joined (key' :: path)).
  apply plain_app; [exact Hkey|]. apply (plain_app "_"); [reflexivity | exact IH].
Qed.


Lemma split_lacks sep s : lacks sep s = true -> split sep s = [s].
Proof.
  induction s as [|c s IH]; [reflexivity|]. cbn [lacks split].
  destruct (Ascii.eqb c sep); [discriminate|]. cbn [negb andb]. intros H.
  now rewrite IH.
Qed.






(** ** Payloads that are not mappings, and payloads that are not text *)

(** C1.  What the code does with the JSON payload [42] on the origin
    [devices/sensor1]: [_parse_message] wraps the number under the whole
    origin, rewritten with [_] for [/], and returns the JSON text of that
    mapping, a [str]; [expose_metrics] hands the text to the extractor, whose
    [data.items()] raises [AttributeError].  No gauge is created and the
    counter is not incremented. *)
Theorem scalar_payload_raises (st : state) :
  let msg := {| topic := "devices/sensor1"; payload := "42" |} in
  (_parse_message (topic msg) (payload msg) st).1
  = Return (Some ("devices_sensor1", VStr ("{" +:+ quote "devices_sensor1" +:+ ": 42}")))
  /\ (expose_metrics ∅ msg st).1 = Raise AttributeError
  /\ unchanged st (expose_metrics ∅ msg st).2.
Proof.
  intros msg. split; [now rewrite parse_message_result|].
  destruct (expose_metrics_run ∅ msg st) as (l & E & _). rewrite E.
  split; [reflexivity|]. split; reflexivity.
Qed.

(** C2.  Two messages on which [expose_metrics] raises, from any state: a
    payload that is a JSON string, by the defect of C1; and bytes that are
    not UTF-8 on a Shelly origin, where [payload.decode()] raises inside a
    [try] that catches [IndexError] only. *)
Theorem ingestion_raises (st : state) :
  (expose_metrics ∅ {| topic := "home/door"; payload := quote "open" |} st).1
  = Raise AttributeError
  /\ (expose_metrics ∅
        {| topic := "shellies/kitchen/temperature"; payload := String "255" EmptyString |}
        st).1
     = Raise UnicodeDecodeError.
Proof.
  split.
  - destruct (expose_metrics_run ∅ {| topic := "home/door"; payload := quote "open" |} st)
      as (l & E & _).
    rewrite E. reflexivity.
  - destruct (expose_metrics_run ∅
                {| topic := "shellies/kitchen/temperature";
                   payload := String "255" EmptyString |} st) as (l & E & _).
    rewrite E. reflexivity.
Qed.

(** ** A Shelly message *)

(** C4, as the code has it.  Ingesting [20.5] on the origin
    [shellies/kitchen/temperature] sets the gauge named by the prefix and the
    field [temperature] to 20.5 for the origin label [shellies_kitchen]: the
    first two segments of the origin joined by [/], in which [_parse_message]
    then replaces [/] by [_].  No other gauge changes, and the counter of that
    origin is incremented. *)
Theorem shelly_temperature (st : state) :
  let st' := (expose_metrics ∅ shelly_message st).2 in
  (expose_metrics ∅ shelly_message st).1 = Return tt
  /\ (exists g, prom_metrics st' !! "mqtt_temperature" = Some g
                /\ gauge_samples g !! "shellies_kitchen" = Some (VFloat float_20_5))
  /\ (prom_metrics st !! "mqtt_temperature" = None ->
      prom_metrics st' !! "mqtt_temperature"
      = Some {| gauge_name := "mqtt_temperature";
                gauge_documentation := "metric generated from MQTT message.";
                gauge_labelnames := ["topic"];
                gauge_samples := {["shellies_kitchen" := VFloat float_20_5]} |})
  /\ (forall name, name <> "mqtt_temperature" ->
        prom_metrics st' !! name = prom_metrics st !! name)
  /\ counter_value "shellies_kitchen" (prom_msg_counter st')
     = S (counter_value "shellies_kitchen" (prom_msg_counter st)).
Proof.
  intros st'. subst st'.
  destruct (expose_metrics_run ∅ shelly_message st) as (l & E & _). rewrite E.
  assert (Hv : verdict_of ∅ shelly_message
               = Extracted "shellies_kitchen" (VDict [("temperature", VStr "20.5")]))
    by reflexivity.
  assert (Hl : leaves ∅ (VDict [("temperature", VStr "20.5")]) EmptyString
               = [("mqtt_temperature", VFloat float_20_5)]) by reflexivity.
  unfold outcome, metrics_after, counter_after. rewrite Hv, Hl.
  cbn [fst snd prom_metrics prom_msg_counter fold_left]. unfold store. cbn [fst snd].
  split; [reflexivity|]. split; [|split; [|split]].
  - eexists. split; [apply lookup_insert_eq|]. cbn [gauge_set gauge_samples].
    apply lookup_insert_eq.
  - intros ->. rewrite lookup_insert_eq. reflexivity.
  - intros name Hname. now rewrite lookup_insert_ne.
  - rewrite counter_value_inc. now destruct (decide _).
Qed.

(** The claim of C4 fails on the label: after the ingestion the registry
    holds the one gauge, its only sample is under [shellies_kitchen], and no
    gauge has a sample under [shellies/kitchen]. *)
Lemma shelly_label_has_no_slash :
  let st' := (expose_metrics ∅ shelly_message (initial_state ∅)).2 in
  prom_metrics st'
  = {["mqtt_temperature" :=
        {| gauge_name := "mqtt_temperature";
           gauge_documentation := "metric generated from MQTT message.";
           gauge_labelnames := ["topic"];
           gauge_samples := {["shellies_kitchen" := VFloat float_20_5]} |}]}
  /\ forall name g,
       prom_metrics st' !! name = Some g -> gauge_samples g !! "shellies/kitchen" = None.
Proof.
  cbv zeta.
  assert (H : prom_metrics (expose_metrics ∅ shelly_message (initial_state ∅)).2
              = {["mqtt_temperature" :=
                    {| gauge_name := "mqtt_temperature";
                       gauge_documentation := "metric generated from MQTT message.";
                       gauge_labelnames := ["topic"];
                       gauge_samples := {["shellies_kitchen" := VFloat float_20_5]} |}]})
    by (vm_compute; reflexivity).
  split; [exact H|]. rewrite H. intros name g [_ <-]%lookup_singleton_Some.
  reflexivity.
Qed.

(** * Further properties *)

(** ** The extractor on any value *)

Lemma parse_metrics_not_dict environ data topic prefix st :
  isinstance_dict data = false ->
  _parse_metrics environ data topic prefix st = (Raise AttributeError, st).
Proof. destruct data; try discriminate; reflexivity. Qed.


(** ** What the extractor stores *)

Lemma sample_store_other environ topic m leaf name label :
  label <> topic ->
  (store environ topic m leaf !! name) ≫= (fun g => gauge_samples g !! label)
  = (m !! name) ≫= (fun g => gauge_samples g !! label).
Proof.
  intros Hne. unfold store. destruct (decide (leaf.1 = name)) as [<-|Hname].
  - rewrite lookup_insert_eq. cbn [mbind option_bind gauge_set gauge_samples].
    rewrite lookup_insert_ne by congruence.
    destruct (m !! leaf.1); reflexivity.
  - now rewrite lookup_insert_ne.
Qed.

Lemma sample_fold_other environ topic ls : forall m name label,
  label <> topic ->
  (fold_left (store environ topic) ls m !! name) ≫= (fun g => gauge_samples g !! label)
  = (m !! name) ≫= (fun g => gauge_samples g !! label).
Proof.
  induction ls as [|leaf ls IH]; intros m name label Hne; [reflexivity|].
  cbn [fold_left]. rewrite IH by exact Hne. now apply sample_store_other.
Qed.

Lemma sample_bind st name label :
  sample st name label = (prom_metrics st !! name) ≫= (fun g => gauge_samples g !! label).
Proof. unfold sample. destruct (prom_metrics st !! name); reflexivity. Qed.

(** X2.  The extractor writes the samples of its own origin only: whatever
    the payload, the sample of every gauge for any other label value is after
    the run what it was before. *)
Theorem extractor_other_origins environ data topic prefix st name label :
  label <> topic ->
  sample (_parse_metrics environ data topic prefix st).2 name label = sample st name label.
Proof.
  intros Hne. destruct (isinstance_dict data) eqn:Hd.
  - destruct (parse_metrics_exposes environ data topic prefix Hd st) as (l & E & _).
    rewrite E, !sample_bind. cbn [snd after prom_metrics].
    now apply sample_fold_other.
  - now rewrite parse_metrics_not_dict.
Qed.

Lemma extractor_other_origins_witness :
  sample (_parse_metrics ∅ (VDict [("temperature", VInt 19)]) "home_hall" EmptyString
            (expose_metrics ∅ shelly_message (initial_state ∅)).2).2
    "mqtt_temperature" "shellies_kitchen"
  = sample (expose_metrics ∅ shelly_message (initial_state ∅)).2
      "mqtt_temperature" "shellies_kitchen".
Proof.
  apply (extractor_other_origins ∅ (VDict [("temperature", VInt 19)]) "home_hall").
  discriminate.
Defined.







(** ** Runs for different origins *)

Lemma gauge_set_comm t1 t2 v1 v2 g :
  t1 <> t2 ->
  gauge_set t1 v1 (gauge_set t2 v2 g) = gauge_set t2 v2 (gauge_set t1 v1 g).
Proof.
  intros Hne. unfold gauge_set. cbn. f_equal. now apply insert_insert_ne.
Qed.

Lemma store_comm_topics environ t1 t2 m x y :
  t1 <> t2 ->
  store environ t1 (store environ t2 m x) y = store environ t2 (store environ t1 m y) x.
Proof.
  intros Hne. unfold store. destruct (decide (x.1 = y.1)) as [Heq|Hxy].
  - rewrite Heq, !lookup_insert_eq, !insert_insert_eq. cbn [default]. unfold id.
    f_equal. now apply gauge_set_comm.
  - rewrite !lookup_insert_ne by congruence. apply insert_insert_ne. congruence.
Qed.

Lemma fold_store_comm_one environ t1 t2 ls : forall m x,
  t1 <> t2 ->
  fold_left (store environ t1) ls (store environ t2 m x)
  = store environ t2 (fold_left (store environ t1) ls m) x.
Proof.
  induction ls as [|y ls IH]; intros m x Hne; [reflexivity|].
  cbn [fold_left]. rewrite store_comm_topics by exact Hne. now apply IH.
Qed.

Lemma fold_store_comm environ t1 t2 ls1 ls2 : forall m,
  t1 <> t2 ->
  fold_left (store environ t1) ls1 (fold_left (store environ t2) ls2 m)
  = fold_left (store environ t2) ls2 (fold_left (store environ t1) ls1 m).
Proof.
  induction ls2 as [|x ls2 IH]; intros m Hne; [reflexivity|].
  cbn [fold_left]. rewrite IH by exact Hne. f_equal.
  now apply fold_store_comm_one.
Qed.

(** X5.  Runs of the extractor for two different origins can be made in
    either order: the registry ends the same. *)
Theorem extractor_origins_commute environ data1 topic1 prefix1 data2 topic2 prefix2 st :
  topic1 <> topic2 ->
  let run1 := fun s => (_parse_metrics environ data1 topic1 prefix1 s).2 in
  let run2 := fun s => (_parse_metrics environ data2 topic2 prefix2 s).2 in
  prom_metrics (run2 (run1 st)) = prom_metrics (run1 (run2 st)).
Proof.
  intros Hne run1 run2.
  assert (H : forall data topic prefix s,
    prom_metrics (_parse_metrics environ data topic prefix s).2
    = fold_left (store environ topic)
        (if isinstance_dict data then leaves environ data prefix else [])
        (prom_metrics s)).
  { intros data topic prefix s. destruct (isinstance_dict data) eqn:Hd.
    - destruct (parse_metrics_exposes environ data topic prefix Hd s) as (l & E & _).
      now rewrite E.
    - now rewrite parse_metrics_not_dict. }
  subst run1 run2. cbv beta. rewrite !H. symmetry. now apply fold_store_comm.
Qed.

Lemma extractor_origins_commute_witness :
  let run1 := fun s =>
    (_parse_metrics ∅ (VDict [("temperature", VInt 19)]) "home_hall" EmptyString s).2 in
  let run2 := fun s =>
    (_parse_metrics ∅ (VDict [("temperature", VInt 23)]) "home_attic" EmptyString s).2 in
  prom_metrics (run2 (run1 (initial_state ∅))) = prom_metrics (run1 (run2 (initial_state ∅))).
Proof.
  apply (extractor_origins_commute ∅ (VDict [("temperature", VInt 19)]) "home_hall"
           EmptyString (VDict [("temperature", VInt 23)]) "home_attic" EmptyString).
  discriminate.
Defined.

(** ** The counter and the registry over any message *)


Lemma parse_metric_number v r :
  _parse_metric v = Return r -> isinstance_int_float r = true.
Proof.
  assert (Htext : forall s, _parse_metric (VStr s) = Return r ->
                            isinstance_int_float r = true).
  { intros s. rewrite parse_metric_text.
    repeat (destruct (case_variant s _); [intros [= <-]; reflexivity|]).
    destruct (py_float s); [intros [= <-]; reflexivity | discriminate]. }
  destruct v as [| b | z | f | s | b | l | d];
    try discriminate; try (intros [= <-]; reflexivity).
  - apply Htext.
  - rewrite parse_metric_bytes. destruct (decode b) as [s|e]; cbn [rbind];
      [apply Htext | discriminate].
Qed.

Lemma leaves_numbers environ data : forall prefix,
  Forall (fun leaf => isinstance_int_float leaf.2 = true) (leaves environ data prefix).
Proof.
  induction data as [| | | | | | |items IH] using pyval_ind; intros prefix;
    try apply List.Forall_nil.
  rewrite leaves_dict. revert prefix.
  induction IH as [|[metric value] items Hvalue _ IHitems]; intros prefix;
    [apply List.Forall_nil|].
  cbn [flat_map]. apply Forall_app. split; [|apply IHitems].
  cbn [snd] in Hvalue. unfold leaf.
  assert (Hleaf : Forall (fun leaf => isinstance_int_float leaf.2 = true)
            match _parse_metric value with
            | Return metric_value => [(prom_metric_name environ prefix metric, metric_value)]
            | Raise _ => []
            end).
  { destruct (_parse_metric value) as [mv|e] eqn:Hv; [|apply List.Forall_nil].
    repeat constructor. exact (parse_metric_number _ _ Hv). }
  destruct value; try exact Hleaf. apply Hvalue.
Qed.

Lemma registry_ok_store environ topic m leaf :
  isinstance_int_float leaf.2 = true ->
  registry_ok environ m -> registry_ok environ (store environ topic m leaf).
Proof.
  intros Hnum Hm name g. unfold store.
  destruct (decide (leaf.1 = name)) as [<-|Hne].
  - rewrite lookup_insert_eq. intros [= <-].
    destruct (m !! leaf.1) as [g0|] eqn:Hg0; cbn [default gauge_set gauge_name
      gauge_labelnames gauge_samples new_Gauge]; unfold id.
    + destruct (Hm _ _ Hg0) as (Hn & Hl & Hs). repeat split; [exact Hn | exact Hl |].
      intros label v. destruct (decide (topic = label)) as [<-|Hlabel].
      * rewrite lookup_insert_eq. now intros [= <-].
      * rewrite lookup_insert_ne by exact Hlabel. apply Hs.
    + repeat split. intros label v. destruct (decide (topic = label)) as [<-|Hlabel].
      * rewrite lookup_insert_eq. now intros [= <-].
      * rewrite lookup_insert_ne by exact Hlabel. now rewrite lookup_empty.
  - rewrite lookup_insert_ne by exact Hne. apply Hm.
Qed.

Lemma registry_ok_fold environ topic ls : forall m,
  Forall (fun leaf => isinstance_int_float leaf.2 = true) ls ->
  registry_ok environ m -> registry_ok environ (fold_left (store environ topic) ls m).
Proof.
  induction ls as [|leaf ls IH]; intros m Hls Hm; [exact Hm|].
  inversion Hls; subst. cbn [fold_left]. apply IH; [assumption|].
  now apply registry_ok_store.
Qed.

(** X7.  The registry keeps its shape over every message: when each gauge is
    stored under its own name, carries the one label dimension of the
    configuration and holds numbers only, the same is true after
    [expose_metrics], whatever the message and whether or not it raises.  The
    registry of a fresh process, the empty one, has that shape. *)
Theorem registry_shape_kept environ msg st :
  registry_ok environ (prom_metrics st) ->
  registry_ok environ (prom_metrics (expose_metrics environ msg st).2)
  /\ registry_ok environ (prom_metrics (initial_state environ)).
Proof.
  intros Hst. split.
  - destruct (expose_metrics_run environ msg st) as (l & E & _). rewrite E.
    cbn [snd prom_metrics]. unfold metrics_after.
    destruct (verdict_of environ msg) as [| | |t []]; try exact Hst.
    apply registry_ok_fold; [apply leaves_numbers | exact Hst].
  - intros name g. cbn. now rewrite lookup_empty.
Qed.

Lemma registry_shape_kept_witness :
  registry_ok ∅ (prom_metrics (expose_metrics ∅ lamp_message (initial_state ∅)).2)
  /\ registry_ok ∅ (prom_metrics (initial_state ∅)).
Proof.
  apply (registry_shape_kept ∅ lamp_message (initial_state ∅)).
  intros name g. cbn. now rewrite lookup_empty.
Defined.

(** ** The list of ignored origins *)

Lemma split_nonempty sep s : split sep s <> [].
Proof.
  destruct s as [|c s]; [discriminate|]. cbn [split].
  destruct (Ascii.eqb c sep); [discriminate|]. destruct (split sep s); discriminate.
Qed.

Lemma split_lack sep s : Forall (fun w => lacks sep w = true) (split sep s).
Proof.
  induction s as [|c s IH]; [repeat constructor|]. cbn [split].
  destruct (Ascii.eqb c sep) eqn:Hc; [constructor; [reflexivity | exact IH]|].
  destruct (split sep s) as [|w ws]; [repeat constructor; cbn; now rewrite Hc|].
  inversion IH; subst. constructor; [|assumption]. cbn [lacks]. now rewrite Hc.
Qed.

Lemma join_cons sep w ws :
  ws <> [] -> join sep (w :: ws) = w +:+ String sep (join sep ws).
Proof. destruct ws; [contradiction | reflexivity]. Qed.

Lemma join_split sep s : join sep (split sep s) = s.
Proof.
  induction s as [|c s IH]; [reflexivity|]. cbn [split].
  destruct (Ascii.eqb_spec c sep) as [->|Hc].
  - rewrite join_cons by apply split_nonempty. now rewrite IH.
  - pose proof (split_nonempty sep s) as Hne.
    destruct (split sep s) as [|w ws]; [contradiction|].
    destruct ws as [|w' ws].
    + cbn [join] in *. now rewrite IH.
    + rewrite join_cons by discriminate. rewrite join_cons in IH by discriminate.
      rewrite append_cons. now rewrite IH.
Qed.

(** X8.  The list of ignored origins is the value of [MQTT_IGNORED_TOPICS]
    cut at its commas: it is never empty, its entries joined by commas give
    the value back, spaces and all, and no entry holds a comma, so that an
    origin with a comma in it is never ignored, whatever the configuration. *)
Theorem ignore_list_entries environ :
  IGNORED_TOPICS environ <> []
  /\ join "," (IGNORED_TOPICS environ) = getenv environ "MQTT_IGNORED_TOPICS" EmptyString
  /\ forall origin, lacks "," origin = false -> origin ∉ IGNORED_TOPICS environ.
Proof.
  unfold IGNORED_TOPICS. split; [apply split_nonempty|]. split; [apply join_split|].
  intros origin Hcomma Hin.
  pose proof (split_lack "," (getenv environ "MQTT_IGNORED_TOPICS" EmptyString)) as H.
  rewrite Forall_forall in H. specialize (H origin Hin). congruence.
Qed.

(** ** The names of metrics, once sanitised *)

Lemma lacks_replace old new s :
  lacks old new = true -> lacks old (replace old new s) = true.
Proof.
  intros Hnew. induction s as [|c s IH]; [reflexivity|]. cbn [replace].
  destruct (Ascii.eqb c old) eqn:Hc.
  - now rewrite lacks_app, Hnew, IH.
  - cbn [lacks]. now rewrite Hc, IH.
Qed.

Lemma lacks_replace_other c old new s :
  lacks c new = true -> lacks c s = true -> lacks c (replace old new s) = true.
Proof.
  intros Hnew. induction s as [|c' s IH]; [reflexivity|]. cbn [lacks replace].
  intros [Hc Hs]%andb_true_iff. destruct (Ascii.eqb c' old).
  - rewrite lacks_app, Hnew. now apply IH.
  - cbn [lacks]. rewrite Hc. now apply IH.
Qed.

Lemma lacks_sub_parens c s : forall inside,
  lacks c s = true -> lacks c (sub_parens_go inside s) = true.
Proof.
  induction s as [|c' s IH]; intros inside; [reflexivity|]. cbn [lacks sub_parens_go].
  intros [Hc Hs]%andb_true_iff.
  destruct inside; [destruct (Ascii.eqb c' ")"); now apply IH|].
  destruct (Ascii.eqb c' "(" && closes s); [now apply IH|].
  cbn [lacks]. rewrite Hc. now apply IH.
Qed.

(** What is left after the removal closes no earlier than the text did. *)
Lemma closes_sub_parens s :
  closes s = false -> closes (sub_parens_go false s) = false.
Proof.
  induction s as [|c s IH]; [reflexivity|]. cbn [closes sub_parens_go].
  destruct (Ascii.eqb c ")") eqn:Hclose; [discriminate|].
  destruct (Ascii.eqb c "010") eqn:Hnl.
  - intros _. destruct (Ascii.eqb c "(" && closes s) eqn:Hopen.
    + apply andb_true_iff in Hopen as [Hopen _].
      apply Ascii.eqb_eq in Hopen. apply Ascii.eqb_eq in Hnl. congruence.
    + cbn [closes]. now rewrite Hclose, Hnl.
  - intros Hs. rewrite Hs, andb_false_r. cbn [closes]. rewrite Hclose, Hnl. now apply IH.
Qed.

(** Once the matches of the pattern are removed, none is left. *)
Lemma sub_parens_twice s :
  sub_parens_go false (sub_parens_go false s) = sub_parens_go false s
  /\ sub_parens_go false (sub_parens_go true s) = sub_parens_go true s.
Proof.
  induction s as [|c s [IHout IHin]]; [split; reflexivity|]. cbn [sub_parens_go]. split.
  - destruct (Ascii.eqb c "(" && closes s) eqn:Hopen; [exact IHin|].
    cbn [sub_parens_go]. rewrite IHout.
    destruct (Ascii.eqb c "("); [|reflexivity]. cbn [andb] in *.
    now rewrite (closes_sub_parens s Hopen).
  - destruct (Ascii.eqb c ")"); [exact IHout | exact IHin].
Qed.

(** X9.  The name of a metric, as [_parse_metrics] builds it from the prefix
    and the key, holds no dot and no space, and no parenthesised run is left
    in it: taking the matches of the pattern out of it again changes
    nothing. *)
Theorem metric_name_clean environ prefix metric :
  let name := prom_metric_name environ prefix metric in
  lacks "." name = true /\ lacks " " name = true /\ re_sub_parens name = name.
Proof.
  intros name. subst name. unfold prom_metric_name, re_sub_parens. split; [|split].
  - apply lacks_sub_parens, lacks_replace_other; [reflexivity|].
    now apply lacks_replace.
  - apply lacks_sub_parens. now apply lacks_replace.
  - apply sub_parens_twice.
Qed.

(** ** The Shelly rewrite *)

Lemma split_two sep s :
  lacks sep s = false -> exists a b rest, split sep s = a :: b :: rest.
Proof.
  induction s as [|c s IH]; [discriminate|]. cbn [lacks split].
  pose proof (split_nonempty sep s) as Hne.
  destruct (Ascii.eqb c sep); cbn [negb andb].
  - intros _. destruct (split sep s) as [|w ws]; [contradiction|]. eauto.
  - intros H. destruct (IH H) as (a & b & rest & ->). eauto.
Qed.

(** X10.  An origin without a slash goes through the Shelly rewrite as it
    is: [_normalize_shelly_msg] returns the origin and the payload bytes
    unchanged, whatever the bytes are, and raises nothing. *)
Theorem shelly_short_origin (origin payload : string) :
  lacks "/" origin = true ->
  _normalize_shelly_msg origin payload = Return (origin, VBytes payload)
  /\ normalize origin payload = Return (origin, VBytes payload).
Proof.
  intros H. assert (Hs : _normalize_shelly_msg origin payload
                         = Return (origin, VBytes payload)).
  { unfold _normalize_shelly_msg. now rewrite (split_lacks "/" origin H). }
  split; [exact Hs|]. unfold normalize. now destruct (contains "shellies" origin).
Qed.

Lemma shelly_short_origin_witness :
  _normalize_shelly_msg "shellies" (String "255" EmptyString)
  = Return ("shellies", VBytes (String "255" EmptyString))
  /\ normalize "shellies" (String "255" EmptyString)
     = Return ("shellies", VBytes (String "255" EmptyString)).
Proof. apply (shelly_short_origin "shellies"). reflexivity. Defined.

Lemma last_cons {A} (x y : A) l : index_last (x :: y :: l) = index_last (y :: l).
Proof.
  unfold index_last. cbn [List.rev].
  destruct (List.rev l ++ [y]) as [|z zs] eqn:H; [now destruct (List.rev l)|].
  reflexivity.
Qed.

Lemma index_last_some {A} (l : list A) : l <> [] -> exists x, index_last l = Return x.
Proof.
  intros Hne. unfold index_last. destruct (List.rev l) as [|x xs] eqn:H; [|eauto].
  apply (f_equal (@List.rev A)) in H. rewrite List.rev_involutive in H. now subst.
Qed.

(** The rewrite of an origin with a slash in it. *)
Lemma normalize_shelly_long origin payload a b rest :
  split "/" origin = a :: b :: rest ->
  _normalize_shelly_msg origin payload
  = match decode payload with
    | Return text =>
        match index_last (b :: rest) with
        | Return k =>
            Return (a +:+ "/" +:+ b,
                    VStr ("{" +:+ dumps_str k +:+ ": " +:+ dumps_str text +:+ "}"))
        | Raise e => Raise e
        end
    | Raise e => Raise e
    end.
Proof.
  intros Hs. unfold _normalize_shelly_msg. rewrite Hs. cbn [index nth_error rbind].
  rewrite last_cons.
  destruct (index_last_some (b :: rest)) as (k & ->); [discriminate|]. cbn [rbind].
  unfold decode. destruct (utf8_decode false payload); reflexivity.
Qed.

(** X11.  On a Shelly origin with a slash in it, a payload that is not UTF-8
    makes [expose_metrics] raise [UnicodeDecodeError], for the [try] of
    [_normalize_shelly_msg] catches [IndexError] only; the registry and the
    counter are as before. *)
Theorem shelly_undecodable_raises environ msg st :
  topic msg ∉ IGNORED_TOPICS environ ->
  contains "shellies" (topic msg) = true ->
  lacks "/" (topic msg) = false ->
  is_text (payload msg) = false ->
  (expose_metrics environ msg st).1 = Raise UnicodeDecodeError
  /\ unchanged st (expose_metrics environ msg st).2.
Proof.
  intros Hin Hshelly Hslash Htext.
  destruct (split_two "/" (topic msg) Hslash) as (a & b & rest & Hs).
  assert (Hv : verdict_of environ msg = Failed UnicodeDecodeError).
  { unfold verdict_of, message_of, normalize.
    rewrite bool_decide_eq_false_2, Hshelly by exact Hin.
    rewrite (normalize_shelly_long _ (payload msg) a b rest Hs).
    unfold is_text in Htext. unfold decode.
    destruct (utf8_decode false (payload msg)); [discriminate | reflexivity]. }
  destruct (expose_metrics_run environ msg st) as (l & E & _). rewrite E.
  unfold outcome, metrics_after, counter_after, unchanged. rewrite Hv.
  repeat split.
Qed.

Lemma shelly_undecodable_raises_witness :
  let msg := {| topic := "shellies/plug/relay/0"; payload := String "200" EmptyString |} in
  (expose_metrics ∅ msg (initial_state ∅)).1 = Raise UnicodeDecodeError
  /\ unchanged (initial_state ∅) (expose_metrics ∅ msg (initial_state ∅)).2.
Proof.
  apply (shelly_undecodable_raises ∅
           {| topic := "shellies/plug/relay/0"; payload := String "200" EmptyString |});
    [apply not_ignored; reflexivity | reflexivity | reflexivity | reflexivity].
Defined.

(** ** Payloads that do not decode *)





(** ** UTF-8, there and back *)









(** ** Scanning what [json.dumps] wrote *)
















(** ** A Shelly message, there and back *)




(** ** What [json.loads] returns, [json.dumps] writes *)

Lemma json_number_free s v : json_number s = Some v -> bytes_free v = true.
Proof.
  unfold json_number.
  destruct (match s with String "-" r => (true, r) | _ => (false, s) end) as [neg r0].
  destruct (span_digits r0) as [ip r1].
  destruct (match r1 with
            | String "." r =>
                let '(fp, r') := span_digits r in (negb (String.eqb fp EmptyString), true, r')
            | _ => (true, false, r1)
            end) as [[frac_ok has_frac] r2].
  match goal with |- context [let '(a, b) := ?X in _] => destruct X as [exp_ok has_exp] end.
  destruct (_ && _ && _); [|discriminate].
  destruct (has_frac || has_exp).
  - destruct (py_float s); [|discriminate]. now intros [= <-].
  - now intros [= <-].
Qed.

Lemma json_atom_free s v : json_atom s = Some v -> bytes_free v = true.
Proof.
  unfold json_atom.
  repeat (match goal with |- context [if ?b then _ else _] => destruct b end;
          [now intros [= <-]|]).
  apply json_number_free.
Qed.

Lemma lex_idle_ok c st ts : lex_idle c = Some (st, ts) -> Forall token_ok ts.
Proof.
  unfold lex_idle.
  repeat (match goal with |- context [if ?b then _ else _] => destruct b end;
          [intros [= <- <-]; repeat constructor|]).
  discriminate.
Qed.

Lemma lex_step_ok st c st' ts : lex_step st c = Some (st', ts) -> Forall token_ok ts.
Proof.
  destruct st as [|acc|acc|acc|acc k u]; cbn [lex_step].
  - apply lex_idle_ok.
  - destruct (is_atom_char c); [intros [= <- <-]; constructor|].
    destruct (json_atom (String.rev acc)) as [v|] eqn:Hv; [|discriminate].
    cbn [mbind option_bind]. destruct (lex_idle c) as [[st1 ts1]|] eqn:Hi; [|discriminate].
    cbn [mbind option_bind]. intros [= <- <-]. constructor.
    + exact (json_atom_free _ _ Hv).
    + exact (lex_idle_ok _ _ _ Hi).
  - repeat (match goal with |- context [if ?b then _ else _] => destruct b end;
            [first [discriminate | intros [= <- <-]; repeat constructor]|]).
    intros [= <- <-]. constructor.
  - destruct (Ascii.eqb c "u"); [intros [= <- <-]; constructor|].
    destruct (lex_escape c); [|discriminate]. intros [= <- <-]. constructor.
  - destruct (hex_val c); [|discriminate]. cbn [mbind option_bind].
    destruct (k =? 3)%nat; intros [= <- <-]; constructor.
Qed.

Lemma lex_ok s : forall st ts, lex st s = Some ts -> Forall token_ok ts.
Proof.
  induction s as [|c s IH]; intros st ts; cbn [lex].
  - destruct st as [|acc| | |]; try discriminate.
    + intros [= <-]. constructor.
    + destruct (json_atom (String.rev acc)) as [v|] eqn:Hv; [|discriminate].
      intros [= <-]. repeat constructor. exact (json_atom_free _ _ Hv).
  - destruct (lex_step st c) as [[st' ts1]|] eqn:Hs; [|discriminate].
    cbn [mbind option_bind]. destruct (lex st' s) as [ts2|] eqn:Hl; [|discriminate].
    intros [= <-]. apply Forall_app. split.
    + exact (lex_step_ok _ _ _ _ Hs).
    + exact (IH _ _ Hl).
Qed.

Lemma dict_set_free k v d :
  bytes_free v = true ->
  forallb (fun kv => bytes_free (snd kv)) d = true ->
  forallb (fun kv => bytes_free (snd kv)) (dict_set k v d) = true.
Proof.
  intros Hv. induction d as [|[k' v'] d IH]; cbn [dict_set forallb snd].
  - now rewrite Hv.
  - intros [Hv' Hd]%andb_true_iff. destruct (String.eqb k' k); cbn [forallb snd].
    + now rewrite Hv, Hd.
    + now rewrite Hv', IH.
Qed.

Lemma deliver_ok v stack p :
  bytes_free v = true -> Forall frame_ok stack -> deliver v stack = Some p -> parser_ok p.
Proof.
  intros Hv Hs. destruct stack as [|[acc|acc [k|]] rest]; cbn [deliver];
    [| | |discriminate]; intros [= <-].
  - split; [constructor | exact Hv].
  - inversion Hs as [|? ? Hf Hr]; subst. split; [|exact I].
    constructor; [|exact Hr]. cbn [frame_ok forallb] in *. now rewrite Hv.
  - inversion Hs as [|? ? Hf Hr]; subst. split; [|exact I].
    constructor; [|exact Hr]. cbn [frame_ok] in *. now apply dict_set_free.
Qed.

Lemma forallb_rev {A} (f : A -> bool) l : forallb f (List.rev l) = forallb f l.
Proof.
  induction l as [|x l IH]; [reflexivity|]. cbn [List.rev forallb].
  rewrite forallb_app, IH. cbn [forallb]. now rewrite andb_true_r, andb_comm.
Qed.

Lemma parse_step_ok p t p' :
  parser_ok p -> token_ok t -> parse_step p t = Some p' -> parser_ok p'.
Proof.
  destruct p as [stack e]. intros [Hs He] Ht. cbn [fst snd] in Hs, He.
  assert (Hcons : forall f, frame_ok f -> Forall frame_ok (f :: stack))
    by (intros f Hf; now constructor).
  unfold parse_step.
  destruct t as [| | | | | |v].
  7:{ destruct e; try (destruct v; discriminate).
      - intros H. apply (deliver_ok v stack); [exact Ht | exact Hs | now destruct v].
      - intros H. apply (deliver_ok v stack); [exact Ht | exact Hs | now destruct v].
      - destruct v; try discriminate.
        destruct stack as [|[acc|acc [k|]] rest]; try discriminate.
        intros [= <-]. split; [|exact I]. inversion Hs; subst. now constructor.
      - destruct v; try discriminate.
        destruct stack as [|[acc|acc [k|]] rest]; try discriminate.
        intros [= <-]. split; [|exact I]. inversion Hs; subst. now constructor. }
  all: destruct e; try discriminate.
  all: try (intros [= <-]; split; cbn [fst snd]; [|exact I];
            first [exact Hs | apply Hcons; reflexivity]).
  all: destruct stack as [|[acc|acc [k|]] rest]; try discriminate.
  all: inversion Hs as [|? ? Hf Hr]; subst.
  all: try (intros [= <-]; split; cbn [fst snd]; [exact Hs | exact I]).
  all: intros H; eapply deliver_ok; [|exact Hr|exact H]; cbn [bytes_free].
  all: first [now rewrite forallb_rev | exact Hf].
Qed.

Lemma parse_ok ts : forall p v,
  parser_ok p -> Forall token_ok ts -> parse p ts = Some v -> bytes_free v = true.
Proof.
  induction ts as [|t ts IH]; intros p v Hp Hts; cbn [parse].
  - destruct p as [[|f stack] []]; try discriminate. intros [= <-]. exact (proj2 Hp).
  - inversion Hts as [|? ? Ht Hts']; subst.
    destruct (parse_step p t) as [p'|] eqn:Hs; [|discriminate].
    cbn [mbind option_bind]. apply IH; [|exact Hts'].
    exact (parse_step_ok _ _ _ Hp Ht Hs).
Qed.

Lemma decode_text_free s v : decode_text s = Return v -> bytes_free v = true.
Proof.
  unfold decode_text. destruct (lex LIdle s) as [ts|] eqn:Hl; [|discriminate].
  cbn [mbind option_bind]. destruct (parse ([], EValue) ts) as [w|] eqn:Hp; [|discriminate].
  intros [= <-]. apply (parse_ok ts ([], EValue) w); [|exact (lex_ok _ _ _ Hl)|exact Hp].
  split; [constructor | exact I].
Qed.

(** No value that [json.loads] returns holds [bytes]. *)
Lemma loads_free p v : loads p = Return v -> bytes_free v = true.
Proof.
  unfold loads. destruct p; try discriminate.
  - destruct (startswith BOM_UTF8 s); [discriminate | apply decode_text_free].
  - destruct (decode_as _ _); [apply decode_text_free | discriminate].
Qed.

(** [json.dumps] writes every value that holds no [bytes]. *)
Lemma dumps_free v : bytes_free v = true -> exists s, dumps v = Return s.
Proof.
  induction v as [|[]| | | | |l IH|d IH] using pyval_ind; cbn [bytes_free dumps];
    try (intros _; eauto; fail); try discriminate.
  - intros Hl.
    assert (H : forall first, exists r,
      (fix items (first : bool) (l : list pyval) : result string :=
         match l with
         | [] => Return "]"
         | x :: l' =>
             rbind (dumps x) (fun sx =>
             rbind (items false l') (fun r =>
             Return ((if first then EmptyString else ", ") +:+ sx +:+ r)))
         end) first l = Return r).
    { induction l as [|x l IHl]; intros first; [eauto|].
      cbn [forallb] in Hl. apply andb_true_iff in Hl as [Hx Hl].
      inversion IH as [|? ? IHx IH']; subst.
      destruct (IHx Hx) as (sx & ->). destruct (IHl IH' Hl false) as (r & ->).
      cbn [rbind]. eauto. }
    destruct (H true) as (r & ->). cbn [rbind]. eauto.
  - intros Hd.
    assert (H : forall first, exists r,
      (fix items (first : bool) (d : list (string * pyval)) : result string :=
         match d with
         | [] => Return "}"
         | (k, x) :: d' =>
             rbind (dumps x) (fun sx =>
             rbind (items false d') (fun r =>
             Return ((if first then EmptyString else ", ")
                     +:+ dumps_str k +:+ ": " +:+ sx +:+ r)))
         end) first d = Return r).
    { induction d as [|[k x] d IHd]; intros first; [eauto|].
      cbn [forallb snd] in Hd. apply andb_true_iff in Hd as [Hx Hd].
      inversion IH as [|? ? IHx IH']; subst. cbn [snd] in IHx.
      destruct (IHx Hx) as (sx & ->). destruct (IHd IH' Hd false) as (r & ->).
      cbn [rbind]. eauto. }
    destruct (H true) as (r & ->). cbn [rbind]. eauto.
Qed.

(** ** Payloads that are not mappings *)

(** X14.  Every payload that decodes to something other than a mapping makes
    [expose_metrics] raise.  For an origin that is neither ignored nor empty,
    [_parse_message] wraps the decoded value under the whole label, the
    origin with [_] for [/], for the split on [/] comes after the
    replacement; [json.dumps] writes the mapping, and the text it returns is
    what [expose_metrics] hands to the extractor, which raises
    [AttributeError].  The registry and the counter are as before. *)
Theorem non_mapping_raises environ msg st t p v :
  topic msg ∉ IGNORED_TOPICS environ ->
  topic msg <> EmptyString ->
  normalize (topic msg) (payload msg) = Return (t, p) ->
  loads p = Return v ->
  isinstance_dict v = false ->
  let label := replace "/" "_" t in
  let r := expose_metrics environ msg st in
  (exists text,
     dumps (VDict [(label, v)]) = Return text
     /\ (_parse_message (topic msg) (payload msg) st).1 = Return (Some (label, VStr text)))
  /\ r.1 = Raise AttributeError
  /\ unchanged st r.2.
Proof.
  intros Hin Ho Hn Hl Hv label r. subst r.
  destruct (dumps_free (VDict [(label, v)])) as (text & Hd).
  { cbn [bytes_free forallb snd]. now rewrite (loads_free p v Hl). }
  assert (Hmsg : message_of (topic msg) (payload msg) = Return (Some (label, VStr text))).
  { unfold message_of. rewrite Hn. cbn [rbind]. rewrite Hl, Hv. cbn [negb].
    fold label. rewrite (split_lacks "/" label) by (now apply lacks_replace).
    change (index_last [label]) with (Return label). cbn [rbind]. now rewrite Hd. }
  split; [exists text; split; [exact Hd | now rewrite parse_message_result]|].
  assert (Hlabel : label <> EmptyString).
  { apply replace_nonempty; [discriminate|]. exact (normalize_nonempty _ _ _ _ Ho Hn). }
  assert (Htext : text <> EmptyString).
  { cbn [dumps] in Hd. destruct (dumps v); [|discriminate]. cbn [rbind] in Hd.
    injection Hd as <-. discriminate. }
  assert (Hverdict : verdict_of environ msg = Extracted label (VStr text)).
  { unfold verdict_of. rewrite bool_decide_eq_false_2 by exact Hin. rewrite Hmsg.
    cbn [truthy].
    destruct (String.eqb_spec label EmptyString) as [|_]; [contradiction|].
    destruct (String.eqb_spec text EmptyString) as [|_]; [contradiction|]. reflexivity. }
  destruct (expose_metrics_run environ msg st) as (l & E & _). rewrite E.
  unfold outcome, metrics_after, counter_after, unchanged. rewrite Hverdict.
  repeat split.
Qed.

Lemma non_mapping_raises_witness :
  let msg := {| topic := "home/attic/motion"; payload := "[1, true, null]" |} in
  let label := replace "/" "_" "home/attic/motion" in
  let r := expose_metrics ∅ msg (initial_state ∅) in
  (exists text,
     dumps (VDict [(label, VList [VInt 1; VBool true; VNone])]) = Return text
     /\ (_parse_message (topic msg) (payload msg) (initial_state ∅)).1
        = Return (Some (label, VStr text)))
  /\ r.1 = Raise AttributeError
  /\ unchanged (initial_state ∅) r.2.
Proof.
  apply (non_mapping_raises ∅
           {| topic := "home/attic/motion"; payload := "[1, true, null]" |}
           (initial_state ∅) "home/attic/motion" (VBytes "[1, true, null]")
           (VList [VInt 1; VBool true; VNone]));
    [apply not_ignored; reflexivity | discriminate | reflexivity | reflexivity
    | reflexivity].
Defined.

(** ** Labels *)

Lemma message_label origin payload t p :
  message_of origin payload = Return (Some (t, p)) -> lacks "/" t = true.
Proof.
  unfold message_of. destruct (normalize origin payload) as [[t0 p0]|e]; [|discriminate].
  cbn [rbind]. assert (Hl : lacks "/" (replace "/" "_" t0) = true)
    by (now apply lacks_replace).
  destruct (loads p0) as [v|e].
  - destruct (isinstance_dict v); cbn [negb]; [now intros [= <- _]|].
    destruct (index_last _) as [k|e]; [|discriminate]. cbn [rbind].
    destruct (dumps _) as [text|e]; [|discriminate]. cbn [rbind]. now intros [= <- _].
  - destruct (_ || _); discriminate.
Qed.

(** X15.  No label value with a slash in it is ever written.  Whatever the
    message, after [expose_metrics] the sample of every gauge and the count
    of the counter for a label value that contains [/] are what they were
    before: [_parse_message] has replaced every [/] of the origin by [_]. *)
Theorem labels_have_no_slash environ msg st name label :
  lacks "/" label = false ->
  let r := expose_metrics environ msg st in
  sample r.2 name label = sample st name label
  /\ counter_value label (prom_msg_counter r.2)
     = counter_value label (prom_msg_counter st).
Proof.
  intros Hslash r. subst r.
  destruct (expose_metrics_run environ msg st) as (l & E & _). rewrite E.
  cbn [snd]. rewrite !sample_bind. cbn [prom_metrics prom_msg_counter].
  unfold metrics_after, counter_after.
  destruct (verdict_of environ msg) as [| | |t p] eqn:Hv; try (split; reflexivity).
  assert (Ht : label <> t).
  { intros ->. unfold verdict_of in Hv.
    destruct (bool_decide _); [discriminate|].
    destruct (message_of (topic msg) (payload msg)) as [[[t' p']|]|e] eqn:Hm;
      try discriminate.
    destruct (_ || _); [discriminate|]. injection Hv as -> ->.
    rewrite (message_label _ _ _ _ Hm) in Hslash. discriminate. }
  destruct p; try (split; reflexivity). split.
  - now apply sample_fold_other.
  - rewrite counter_value_inc. destruct (decide (t = label)); [congruence | reflexivity].
Qed.

Lemma labels_have_no_slash_witness :
  let r := expose_metrics ∅ shelly_message (initial_state ∅) in
  sample r.2 "mqtt_temperature" "shellies/kitchen"
  = sample (initial_state ∅) "mqtt_temperature" "shellies/kitchen"
  /\ counter_value "shellies/kitchen" (prom_msg_counter r.2)
     = counter_value "shellies/kitchen" (prom_msg_counter (initial_state ∅)).
Proof.
  apply (labels_have_no_slash ∅ shelly_message (initial_state ∅)
           "mqtt_temperature" "shellies/kitchen").
  reflexivity.
Defined.

(** ** The coercer, once more *)

(** X16.  What [_parse_metric] returns is a number, and one that it returns
    unchanged when given it again; what it raises is a [ValueError], the
    exception the loop of [_parse_metrics] catches, and it raises on no
    number. *)
Theorem coercer_closed (v : pyval) :
  match _parse_metric v with
  | Return r => isinstance_int_float r = true /\ _parse_metric r = Return r
  | Raise e => isinstance_exn e ValueError = true /\ isinstance_int_float v = false
  end.
Proof.
  destruct (_parse_metric v) as [r|e] eqn:H.
  - pose proof (parse_metric_number v r H) as Hr. split; [exact Hr|].
    unfold _parse_metric. now rewrite Hr.
  - split; [exact (parse_metric_raises v e H)|].
    unfold _parse_metric in H. destruct (isinstance_int_float v); [discriminate|reflexivity].
Qed.

(** ** The parser and the state *)

(** X17.  [_parse_message] touches neither the registry nor the counter.  It
    logs the three separators and the origin, and then at most one record
    more: one, the record of the failure, exactly when it returns the pair of
    [None]s. *)
Theorem parser_only_logs (origin payload : string) (st : state) :
  let r := _parse_message origin payload st in
  unchanged st r.2
  /\ exists l,
       LOG r.2 = LOG st ++ [DebugSeparator; DebugSeparator; DebugSeparator;
                            DebugTopic origin] ++ l
       /\ (r.1 = Return None -> exists p, l = [DebugFailedJSON p] \/ l = [DebugUndecodable p])
       /\ (r.1 <> Return None -> l = []).
Proof.
  cbv zeta.
  unfold _parse_message, mbind, M_bind, bind, log, lift, ret, raise, unchanged.
  cbn [fst snd prom_metrics prom_msg_counter LOG].
  destruct (normalize origin payload) as [[t p]|e]; cbn [fst snd prom_metrics prom_msg_counter LOG].
  2:{ split; [split; reflexivity|]. exists []. rewrite <- !app_assoc.
      split; [reflexivity|]. split; [discriminate | reflexivity]. }
  destruct (loads p) as [v|e].
  - destruct (isinstance_dict v); cbn [negb fst snd prom_metrics prom_msg_counter LOG].
    { split; [split; reflexivity|]. exists []. rewrite <- !app_assoc.
      split; [reflexivity|]. split; [discriminate | reflexivity]. }
    destruct (index_last _) as [k|e]; cbn [fst snd prom_metrics prom_msg_counter LOG].
    2:{ split; [split; reflexivity|]. exists []. rewrite <- !app_assoc.
        split; [reflexivity|]. split; [discriminate | reflexivity]. }
    destruct (dumps _) as [text|e]; cbn [fst snd prom_metrics prom_msg_counter LOG];
      (split; [split; reflexivity|]); exists []; rewrite <- !app_assoc;
      (split; [reflexivity|]); (split; [discriminate | reflexivity]).
  - destruct (isinstance_exn e JSONDecodeError);
      cbn [fst snd prom_metrics prom_msg_counter LOG].
    { split; [split; reflexivity|]. exists [DebugFailedJSON p]. rewrite <- !app_assoc.
      split; [reflexivity|]. split; [eauto | contradiction]. }
    destruct (isinstance_exn e UnicodeDecodeError);
      cbn [fst snd prom_metrics prom_msg_counter LOG].
    { split; [split; reflexivity|]. exists [DebugUndecodable p]. rewrite <- !app_assoc.
      split; [reflexivity|]. split; [eauto | contradiction]. }
    split; [split; reflexivity|]. exists []. rewrite <- !app_assoc.
    split; [reflexivity|]. split; [discriminate | reflexivity].
Qed.

(** ** Ingestion and extraction *)

(** X18.  For a message that is neither ignored nor of the empty origin, and
    whose payload decodes to a mapping that is not empty, the registry after
    [expose_metrics] is the registry after [_parse_metrics] alone, run on the
    decoded mapping under the label of the origin with the empty prefix:
    nothing before or after the extractor writes a gauge. *)
Theorem ingestion_is_extraction environ msg st t p item items :
  topic msg ∉ IGNORED_TOPICS environ ->
  topic msg <> EmptyString ->
  normalize (topic msg) (payload msg) = Return (t, p) ->
  loads p = Return (VDict (item :: items)) ->
  prom_metrics (expose_metrics environ msg st).2
  = prom_metrics
      (_parse_metrics environ (VDict (item :: items)) (replace "/" "_" t) EmptyString st).2.
Proof.
  intros Hin Ho Hn Hl.
  assert (Hmsg : message_of (topic msg) (payload msg)
                 = Return (Some (replace "/" "_" t, VDict (item :: items)))).
  { unfold message_of. now rewrite Hn; cbn [rbind]; rewrite Hl. }
  assert (Hlabel : replace "/" "_" t <> EmptyString).
  { apply replace_nonempty; [discriminate|]. exact (normalize_nonempty _ _ _ _ Ho Hn). }
  pose proof (verdict_extracted environ msg _ _ _ Hin Hmsg Hlabel) as Hv.
  destruct (expose_metrics_run environ msg st) as (l & E & _). rewrite E.
  destruct (parse_metrics_exposes environ (VDict (item :: items)) (replace "/" "_" t)
              EmptyString eq_refl st) as (l' & E' & _).
  rewrite E'. cbn [snd prom_metrics after]. unfold metrics_after. now rewrite Hv.
Qed.

Lemma ingestion_is_extraction_witness :
  let msg := {| topic := "home/hall/sensor";
                payload := "{" +:+ quote "humidity" +:+ ": 41, "
                               +:+ quote "state" +:+ ": " +:+ quote "on" +:+ "}" |} in
  prom_metrics (expose_metrics ∅ msg (initial_state ∅)).2
  = prom_metrics
      (_parse_metrics ∅ (VDict [("humidity", VInt 41); ("state", VStr "on")])
         (replace "/" "_" "home/hall/sensor") EmptyString (initial_state ∅)).2.
Proof.
  apply (ingestion_is_extraction ∅
           {| topic := "home/hall/sensor";
              payload := "{" +:+ quote "humidity" +:+ ": 41, "
                             +:+ quote "state" +:+ ": " +:+ quote "on" +:+ "}" |}
           (initial_state ∅) "home/hall/sensor"
           (VBytes ("{" +:+ quote "humidity" +:+ ": 41, "
                        +:+ quote "state" +:+ ": " +:+ quote "on" +:+ "}"))
           ("humidity", VInt 41) [("state", VStr "on")]);
    [apply not_ignored; reflexivity | discriminate | reflexivity | reflexivity].
Defined.
